(** * IP resolver (ipre.go): a shallow embedding and its properties

    The program queries every configured name server for the A records of
    one domain and prints a comparison.  This file embeds the functions of
    [ipre.go] and proves the properties its specification states.

    Go strings are byte sequences; they are modelled by [string], whose
    characters are the 256 byte values.  A Go [error] is observed only through
    its [Error()] text and, in [getDefaultConfig], through a type assertion on
    [*ReadConfigError]. *)

From Stdlib Require Import Ascii String List NArith Lia.
From stdpp Require Import base option list strings gmap sorting pretty.

Local Open Scope string_scope.
Local Open Scope list_scope.
#[local] Arguments String.append !_ _ / : simpl nomatch.

(** ** Go strings: bytes, [strings.ToLower], [strings.Contains] *)

Module GoString.

Definition byte_val (c : ascii) : N := N_of_ascii c.

(** [c < utf8.RuneSelf] *)
Definition is_ascii_byte (c : ascii) : bool := (byte_val c <? 128)%N.

Fixpoint isASCII (s : string) : bool :=
  match s with
  | EmptyString => true
  | String c r => is_ascii_byte c && isASCII r
  end.

(** ['A' <= c && c <= 'Z'], then [c += 'a' - 'A'] *)
Definition lower_byte (c : ascii) : ascii :=
  if ((65 <=? byte_val c) && (byte_val c <=? 90))%N
  then ascii_of_N (byte_val c + 32)
  else c.

Fixpoint lower_ascii (s : string) : string :=
  match s with
  | EmptyString => EmptyString
  | String c r => String (lower_byte c) (lower_ascii r)
  end.

(** [strings.HasPrefix] *)
Fixpoint HasPrefix (s prefix : string) : bool :=
  match prefix, s with
  | EmptyString, _ => true
  | String _ _, EmptyString => false
  | String p ps, String c cs => if decide (p = c) then HasPrefix cs ps else false
  end.

(** [strings.Contains(s, substr)]: [substr] occurs at some byte offset. *)
Fixpoint Contains (s substr : string) : bool :=
  HasPrefix s substr ||
  match s with
  | EmptyString => false
  | String _ r => Contains r substr
  end.

(** [strings.Repeat] of a one-byte string. *)
Fixpoint Repeat (c : ascii) (n : nat) : string :=
  match n with
  | O => EmptyString
  | S k => String c (Repeat c k)
  end.

(** The line feed written by [fmt.Println]. *)
Definition nl : string := String (ascii_of_nat 10) EmptyString.

(** *** UTF-8 as [unicode/utf8] decodes it

    [fmt] measures width and precision in runes.  A rune is a well-formed
    UTF-8 sequence of one to four bytes; a byte that starts no well-formed
    sequence counts as one rune of width 1 ([RuneError]). *)

(** Continuation bytes, [0x80 .. 0xBF]. *)
Definition is_cont (c : ascii) : bool :=
  ((128 <=? byte_val c) && (byte_val c <=? 191))%N.

(** Length the lead byte announces: 1 for ASCII and for bytes that are no
    lead byte ([0x80 .. 0xC1], [0xF5 .. 0xFF]), 2 for [0xC2 .. 0xDF],
    3 for [0xE0 .. 0xEF], 4 for [0xF0 .. 0xF4]. *)
Definition lead_size (c : ascii) : nat :=
  let b := byte_val c in
  if (b <? 194)%N then 1
  else if (b <? 224)%N then 2
  else if (b <? 240)%N then 3
  else if (b <? 245)%N then 4
  else 1.

(** Accepted range of the second byte: [0xA0 .. 0xBF] after [0xE0],
    [0x80 .. 0x9F] after [0xED], [0x90 .. 0xBF] after [0xF0],
    [0x80 .. 0x8F] after [0xF4], [0x80 .. 0xBF] otherwise. *)
Definition second_ok (c0 c1 : ascii) : bool :=
  let b := byte_val c0 in
  let lo := if (b =? 224)%N then 160%N else if (b =? 240)%N then 144%N else 128%N in
  let hi := if (b =? 237)%N then 159%N else if (b =? 244)%N then 143%N else 191%N in
  ((lo <=? byte_val c1) && (byte_val c1 <=? hi))%N.

(** Width in bytes of the first rune of [s] ([utf8.DecodeRuneInString]);
    0 for the empty string. *)
Definition rune_size (s : string) : nat :=
  match s with
  | EmptyString => 0
  | String c0 r =>
      match lead_size c0 with
      | 2 =>
          match r with
          | String c1 _ => if second_ok c0 c1 then 2 else 1
          | _ => 1
          end
      | 3 =>
          match r with
          | String c1 (String c2 _) =>
              if second_ok c0 c1 && is_cont c2 then 3 else 1
          | _ => 1
          end
      | 4 =>
          match r with
          | String c1 (String c2 (String c3 _)) =>
              if second_ok c0 c1 && is_cont c2 && is_cont c3 then 4 else 1
          | _ => 1
          end
      | _ => 1
      end
  end.

(** Runes of [s] once the [skip] bytes that finish the current rune are
    passed. *)
Fixpoint count_from (skip : nat) (s : string) : nat :=
  match s with
  | EmptyString => 0
  | String _ r =>
      match skip with
      | S k => count_from k r
      | O => S (count_from (rune_size s - 1) r)
      end
  end.

(** [utf8.RuneCountInString] *)
Definition RuneCountInString (s : string) : nat := count_from 0 s.

(** The [skip] bytes that finish the current rune, then [n] more runes. *)
Fixpoint trunc_from (n skip : nat) (s : string) : string :=
  match s with
  | EmptyString => EmptyString
  | String c r =>
      match skip with
      | S k => String c (trunc_from n k r)
      | O =>
          match n with
          | O => EmptyString
          | S n' => String c (trunc_from n' (rune_size s - 1) r)
          end
      end
  end.

(** [fmt.truncateString] with a precision: [s] cut before rune number
    [prec] (counting from 0), whole when it has no such rune. *)
Definition truncateString (prec : nat) (s : string) : string :=
  trunc_from prec 0 s.

(** [fmt.padString] with a width and the minus flag: spaces are written
    after [s] up to [wid] runes. *)
Definition padString (wid : nat) (s : string) : string :=
  s +:+ Repeat " " (wid - RuneCountInString s).

(** The verb [%-wid.precs] ([prec = Some p]) or [%-wids] ([prec = None]). *)
Definition Sprintf_s (wid : nat) (prec : option nat) (s : string) : string :=
  padString wid (match prec with Some p => truncateString p s | None => s end).

Section ToLower.
(** [strings.Map(unicode.ToLower, s)], the path [strings.ToLower] takes
    for a string with a byte outside ASCII; the Unicode tables are the
    library's. *)
Variable unicode_lower : string -> string.

Definition ToLower (s : string) : string :=
  if isASCII s then lower_ascii s else unicode_lower s.
End ToLower.

(** An occurrence of [phrase] in [s] up to the case of ASCII letters. *)
Definition ci_occurs (phrase s : string) : Prop :=
  exists pre mid post, s = pre +:+ mid +:+ post /\ lower_ascii mid = phrase.

(** What [strings.Map(unicode.ToLower, _)] does to a run of ASCII bytes: it
    stays in place, with its upper-case letters lowered. *)
Definition keeps_ascii_runs (unicode_lower : string -> string) : Prop :=
  forall pre mid post, isASCII mid = true ->
    exists pre' post', unicode_lower (pre +:+ mid +:+ post) = pre' +:+ lower_ascii mid +:+ post'.

End GoString.

(** ** Errors *)

Record ReadConfigError := {
  Path : string;
  Errmsg : string;
  Exit : bool
}.

(** A Go [error] value: the text of [errors.New] and of the errors of the
    resolver and file libraries, or a [*ReadConfigError]. *)
Inductive error :=
| errorString (s : string)
| readConfigError (e : ReadConfigError).

(** [func (e *ReadConfigError) Error() string] and [errorString.Error]. *)
Definition Error (e : error) : string :=
  match e with
  | errorString s => s
  | readConfigError e =>
      "Configuration file '" +:+ Path e +:+ "' load error: " +:+ Errmsg e
  end.

Section ErrToString.
Variable unicode_lower : string -> string.

(** The closure [f] of [errToString]. *)
Definition f (str substr : string) : bool :=
  GoString.Contains (GoString.ToLower unicode_lower str) substr.

(** [errToString]; [None] is the nil error. *)
Definition errToString (err : option error) : string :=
  match err with
  | None => ""
  | Some e =>
      let s := Error e in
      if f s "timeout" then "Timeout"
      else if f s "refused the network connection" then "Conn refused"
      else if f s "no service is operating" then "NS invalid"
      else if f s "forcibly closed by the remote host" then "NS invalid"
      else if f s "no result" then "No result"
      else "Connect error"
  end.
End ErrToString.

(** The categorization table as the specification words it: an ordered list
    of (phrase, label) rules; the first rule that matches wins. *)
Definition category_rules : list (string * string) :=
  [ ("timeout", "Timeout");
    ("refused the network connection", "Conn refused");
    ("no service is operating", "NS invalid");
    ("forcibly closed by the remote host", "NS invalid");
    ("no result", "No result") ].

Fixpoint first_match (matches : string -> bool) (rules : list (string * string))
    (fallback : string) : string :=
  match rules with
  | [] => fallback
  | (phrase, label) :: rest =>
      if matches phrase then label else first_match matches rest fallback
  end.

(** ** Data model *)

Record DnsAddr := {
  Name : string;
  Address : string
}.

Abbreviation DnsAddrs := (list DnsAddr).

(** [Answer] embeds [DnsAddr].  A nil slice and an empty slice are both the
    empty list: [query] never builds an empty slice that is not nil, and
    [len] does not tell them apart. *)
Record Answer := {
  Answer_DnsAddr : DnsAddr;
  Answer_IP : list string;
  Answer_Error : option error
}.

Abbreviation Answers := (list Answer).

Record AnswerJson := {
  AnswerJson_DnsAddr : DnsAddr;
  AnswerJson_IP : list string;
  AnswerJson_Error : string
}.

Abbreviation AnswersJson := (list AnswerJson).

(** The zero value of [Answer], as [make(Answers, n)] fills the slice. *)
Definition zero_Answer : Answer :=
  {| Answer_DnsAddr := {| Name := ""; Address := "" |};
     Answer_IP := [];
     Answer_Error := None |}.

(** [s[i] = x]: [None] is the run-time panic for an index out of range. *)
Definition store {A} (s : list A) (i : nat) (x : A) : option (list A) :=
  if decide (i < length s) then Some (<[i := x]> s) else None.

(** ** The resolver library seen from [ARecords] *)

(** The address of an A record ([net.IP] of an IPv4 address). *)
Record IPv4 := {
  octet1 : Byte.byte;
  octet2 : Byte.byte;
  octet3 : Byte.byte;
  octet4 : Byte.byte
}.

(** [net.IP.String] of an IPv4 address: dotted decimal. *)
Definition IP_String (a : IPv4) : string :=
  pretty (Byte.to_N (octet1 a)) +:+ "." +:+
  pretty (Byte.to_N (octet2 a)) +:+ "." +:+
  pretty (Byte.to_N (octet3 a)) +:+ "." +:+
  pretty (Byte.to_N (octet4 a)).

(** A resource record of the answer section: an [*mdns.A], or a record of
    another type. *)
Inductive RR :=
| RR_A (a : IPv4)
| RR_other.

(** One [client.Exchange]: the client's network and timeout in seconds, the
    name asked for (type A), and the server as [host:port]. *)
Record Exchange_call := {
  call_net : string;
  call_timeout : option N;
  call_question : string;
  call_server : string
}.

(** The exchanges issued so far, oldest first. *)
Abbreviation World := (list Exchange_call).

Section Resolver.
(** [mdns.Fqdn] *)
Variable Fqdn : string -> string.
(** What [client.Exchange] returns for a call, given the exchanges made
    before it: the answer section of the reply, or an error. *)
Variable Exchange : World -> Exchange_call -> list RR + error.

(** The loop over [r.Answer]. *)
Fixpoint a_records (answer : list RR) : list string :=
  match answer with
  | [] => []
  | RR_A a :: rest => IP_String a :: a_records rest
  | RR_other :: rest => a_records rest
  end.

(** [ARecords]; [timeout] is the variadic parameter. *)
Definition ARecords (domain nameserver : string) (port : N) (net : string)
    (timeout : list N) (w : World) : (list string * option error) * World :=
  if decide (net <> "tcp" /\ net <> "udp") then
    (([], Some (errorString "The Parameter 'net' should only be 'tcp' or 'udp'.")), w)
  else
    let call :=
      {| call_net := net;
         call_timeout := head timeout;
         call_question := Fqdn domain;
         call_server := nameserver +:+ ":" +:+ pretty port |} in
    match Exchange w call with
    | inr err => (([], Some err), w ++ [call])
    | inl answer => ((a_records answer, None), w ++ [call])
    end.

(** The goroutine that [query] starts for server [d], up to the store: the
    [Answer] it builds. *)
Definition goroutine_answer (domain net : string) (d : DnsAddr) (w : World)
    : Answer * World :=
  let answer := zero_Answer in
  let answer :=
    {| Answer_DnsAddr := d;
       Answer_IP := Answer_IP answer;
       Answer_Error := Answer_Error answer |} in
  let '((ip, err), w') := ARecords domain (Address d) 53 net [3%N] w in
  let answer :=
    match err with
    | Some e =>
        {| Answer_DnsAddr := Answer_DnsAddr answer;
           Answer_IP := Answer_IP answer;
           Answer_Error := Some e |}
    | None =>
        if decide (length ip = 0)
        then {| Answer_DnsAddr := Answer_DnsAddr answer;
                Answer_IP := Answer_IP answer;
                Answer_Error := Some (errorString "No result") |}
        else {| Answer_DnsAddr := Answer_DnsAddr answer;
                Answer_IP := ip;
                Answer_Error := Answer_Error answer |}
    end in
  (answer, w').

(** The goroutine for server [d] and slot [n]: [answers[n] = answer]. *)
Definition goroutine (domain net : string) (n : nat) (d : DnsAddr)
    (answers : Answers) (w : World) : option (Answers * World) :=
  let '(answer, w') := goroutine_answer domain net d w in
  answers' ← store answers n answer;
  Some (answers', w').

(** The goroutines [query] starts: one per server, with its index. *)
Definition launched (dns : DnsAddrs) : list (nat * DnsAddr) :=
  imap (fun j i => (j, i)) dns.

(** The goroutines run in the order [sched]. *)
Fixpoint run_goroutines (domain net : string) (sched : list (nat * DnsAddr))
    (answers : Answers) (w : World) : option (Answers * World) :=
  match sched with
  | [] => Some (answers, w)
  | (n, d) :: rest =>
      '(answers', w') ← goroutine domain net n d answers w;
      run_goroutines domain net rest answers' w'
  end.

(** [query].  The goroutines share only the slice [answers], each writing
    its own slot, and [wg.Wait] returns when all of them are done; [sched]
    is the order in which they made their exchange.  It is any arrangement
    of [launched dns] ([schedule_of]). *)
Definition query (dns : DnsAddrs) (domain net : string)
    (sched : list (nat * DnsAddr)) (w : World) : option (Answers * World) :=
  let answers := replicate (length dns) zero_Answer in
  run_goroutines domain net sched answers w.

Definition schedule_of (dns : DnsAddrs) (sched : list (nat * DnsAddr)) : Prop :=
  sched ≡ₚ launched dns.
End Resolver.

(** ** The aggregator *)

(** The map [i] of [allIP] after the first loop. *)
Definition allIP_map (a : Answers) : gmap string bool :=
  foldl (fun i item => foldl (fun i ip => <[ip := true]> i) i (Answer_IP item)) ∅ a.

(** [sort.Strings]: ascending in the order [<] of Go strings, which compares
    byte by byte ([String.le] is that order with equality). *)
Definition sort_Strings (x : list string) : list string :=
  merge_sort String.le x.

(** [allIP] when the range over the map visits its keys in the order
    [keys]; Go leaves that order unspecified. *)
Definition allIP_from (keys : list string) : list string :=
  sort_Strings keys.

Definition key_order (a : Answers) (keys : list string) : Prop :=
  keys ≡ₚ (map_to_list (allIP_map a)).*1.

(** [allIP] with the keys visited in the order of [map_to_list];
    [allIP_from_any_order] shows that the order does not matter. *)
Definition allIP (a : Answers) : list string :=
  allIP_from (map_to_list (allIP_map a)).*1.

(** [in]; the name is a keyword here. *)
Fixpoint in_ (ip : string) (ips : list string) : bool :=
  match ips with
  | [] => false
  | i :: rest => if decide (i = ip) then true else in_ ip rest
  end.

(** ** The formatter *)

Section Formatter.
Variable unicode_lower : string -> string.

(** The loop [for j := 0; j < len(allip); j++] of [output] for one server
    without error, from index [j] on; [rest] is [allip[j:]]. *)
Fixpoint place_ips (rest : list string) (j : nat) (item : Answer) (i len_a : nat)
    (ip : list string) : option (list string) :=
  match rest with
  | [] => Some ip
  | allip_j :: rest' =>
      ip' ← (if in_ allip_j (Answer_IP item)
             then store ip (j * len_a + i) allip_j
             else Some ip);
      place_ips rest' (S j) item i len_a ip'
  end.

(** The loop [for i, item := range a] that fills [head] and [ip], from
    index [i] on; [items] is [a[i:]]. *)
Fixpoint fill (items : list Answer) (i len_a : nat) (allip : list string)
    (head ip : list string) : option (list string * list string) :=
  match items with
  | [] => Some (head, ip)
  | item :: items' =>
      head1 ← store head i (Name (Answer_DnsAddr item));
      head2 ← store head1 (i + len_a) (Address (Answer_DnsAddr item));
      ip' ← match Answer_Error item with
            | None => place_ips allip 0 item i len_a ip
            | Some e => store ip i (errToString unicode_lower (Some e))
            end;
      fill items' (S i) len_a allip head2 ip'
  end.

(** The slices [head] and [ip] of [output] when the printing starts. *)
Definition output_grid (a : Answers) : option (list string * list string) :=
  let allip := allIP a in
  let resultNum := if decide (length allip = 0) then 1 else length allip in
  let head := replicate (length a * 2) "" in
  let ip := (fun _ => "-") <$> replicate (length a * resultNum) "" in
  fill a 0 (length a) allip head ip.

(** A printing loop of [output]: every item through [cell], and a line
    feed after item [i] when [(i + 1) % len(a) == 0]; [None] is the panic
    of a division by zero. *)
Fixpoint print_cells (cell : string -> string) (len_a : nat) (items : list string)
    (i : nat) : option string :=
  match items with
  | [] => Some ""
  | item :: rest =>
      line_end ← (if decide (len_a = 0) then None
                  else Some (if decide ((i + 1) mod len_a = 0) then GoString.nl else ""));
      out ← print_cells cell len_a rest (S i);
      Some (cell item +:+ line_end +:+ out)
  end.

(** [output]: what it writes to standard output. *)
Definition output (a : Answers) : option string :=
  '(head, ip) ← output_grid a;
  head_out ← print_cells (GoString.Sprintf_s 17 (Some 16)) (length a) head 0;
  ip_out ← print_cells (GoString.Sprintf_s 17 None) (length a) ip 0;
  Some (head_out +:+ GoString.Repeat "-" (17 * length a) +:+ GoString.nl +:+ ip_out).
End Formatter.

(** [outputNormal]: what it writes to standard output. *)
Definition outputNormal (a : Answers) : string :=
  foldr (fun i out => i +:+ GoString.nl +:+ out) "" (allIP a).

(** *** JSON *)

(** The JSON values that [json.Marshal] builds from the types of this
    program. *)
#[warnings="-register-all"]
Inductive json :=
| JNull
| JString (s : string)
| JArray (items : list json)
| JObject (fields : list (string * json)).

(** A slice of strings: [null] when nil, an array otherwise. *)
Definition json_of_strings (x : list string) : json :=
  match x with
  | [] => JNull
  | _ => JArray (JString <$> x)
  end.

(** An [AnswerJson]: the fields of the embedded [DnsAddr] are promoted, and
    without tags the keys are the field names. *)
Definition json_of_AnswerJson (r : AnswerJson) : json :=
  JObject [ ("Name", JString (Name (AnswerJson_DnsAddr r)));
            ("Address", JString (Address (AnswerJson_DnsAddr r)));
            ("IP", json_of_strings (AnswerJson_IP r));
            ("Error", JString (AnswerJson_Error r)) ].

Definition json_of_AnswersJson (aj : AnswersJson) : json :=
  JArray (json_of_AnswerJson <$> aj).

Definition json_of_DnsAddrs (conf : DnsAddrs) : json :=
  JArray ((fun d => JObject [ ("Name", JString (Name d));
                              ("Address", JString (Address d)) ]) <$> conf).

(** The slice [aj] of [outputJson]. *)
Definition to_AnswersJson (a : Answers) : AnswersJson :=
  (fun item =>
     {| AnswerJson_DnsAddr := Answer_DnsAddr item;
        AnswerJson_IP := Answer_IP item;
        AnswerJson_Error :=
          match Answer_Error item with
          | Some e => Error e
          | None => ""
          end |}) <$> a.

Section OutputJson.
(** The text [json.Marshal] writes for a value. *)
Variable json_text : json -> string.

(** [outputJson]: what it writes to standard output.  [json.Marshal] does
    not fail on slices of structs of strings. *)
Definition outputJson (a : Answers) : string :=
  json_text (json_of_AnswersJson (to_AnswersJson a)) +:+ GoString.nl.
End OutputJson.

(** Reading the output back, as [json.Unmarshal] into an [AnswersJson]
    does: a key is looked up by name, [null] and a missing key leave the
    zero value. *)
Definition json_field (key : string) (fields : list (string * json)) : json :=
  match list_find (fun kv => kv.1 = key) fields with
  | Some (_, (_, v)) => v
  | None => JNull
  end.

Definition string_of_json (v : json) : option string :=
  match v with
  | JNull => Some ""
  | JString s => Some s
  | _ => None
  end.

Definition strings_of_json (v : json) : option (list string) :=
  match v with
  | JNull => Some []
  | JArray items => mapM string_of_json items
  | _ => None
  end.

Definition AnswerJson_of_json (v : json) : option AnswerJson :=
  match v with
  | JObject fields =>
      name ← string_of_json (json_field "Name" fields);
      address ← string_of_json (json_field "Address" fields);
      ip ← strings_of_json (json_field "IP" fields);
      err ← string_of_json (json_field "Error" fields);
      Some {| AnswerJson_DnsAddr := {| Name := name; Address := address |};
              AnswerJson_IP := ip;
              AnswerJson_Error := err |}
  | _ => None
  end.

Definition AnswersJson_of_json (v : json) : option AnswersJson :=
  match v with
  | JNull => Some []
  | JArray items => mapM AnswerJson_of_json items
  | _ => None
  end.

(** ** Configuration *)

(** What the file system holds at a path, as [readConfig] observes it. *)
Inductive file_state :=
| NotExist                      (* [os.Stat] fails, [os.IsNotExist] holds *)
| StatFails                     (* [os.Stat] fails in another way *)
| Directory                     (* [stat.IsDir()] *)
| ReadFails (err : error)       (* [ioutil.ReadFile] fails *)
| Contents (b : string).        (* [ioutil.ReadFile] returns [b] *)

Section Config.
Variable file_at : string -> file_state.
(** The value [json.Unmarshal(b, &conf)] leaves in [conf]; its error is
    dropped by [readConfig]. *)
Variable json_Unmarshal : string -> DnsAddrs.
Variable Getenv : string -> string.
(** [filepath.Join] *)
Variable Join : list string -> string.

(** [readConfig].  [None] is the panic of [stat.IsDir()] on the nil
    [stat] that a failed [os.Stat] returns. *)
Definition readConfig (file : string) : option (DnsAddrs * option error) :=
  let conf : DnsAddrs := [] in
  match file_at file with
  | NotExist =>
      Some (conf, Some (readConfigError
        {| Path := file; Errmsg := "file does not exists"; Exit := false |}))
  | StatFails => None
  | Directory =>
      Some (conf, Some (readConfigError
        {| Path := file; Errmsg := "file is directory"; Exit := true |}))
  | ReadFails err =>
      Some (conf, Some (readConfigError
        {| Path := file; Errmsg := Error err; Exit := true |}))
  | Contents b =>
      let conf := json_Unmarshal b in
      if decide (length conf = 0) then
        Some (conf, Some (readConfigError
          {| Path := file;
             Errmsg := "file format is not correct, use '-s' to see a sample configuration";
             Exit := true |}))
      else Some (conf, None)
  end.

(** The slice [paths] of [getDefaultConfig]. *)
Definition default_paths : list string :=
  let configFile := "ipre.conf" in
  let configFileH := ".ipre" in
  let home := Getenv "HOME" in
  let home := if decide (home = "")
              then Join [Getenv "HOMEDRIVE"; Getenv "HOMEPATH"] else home in
  let paths := [] in
  let paths := if decide (home <> "")
               then (paths ++ [Join [home; ".config"; configFile]])
                      ++ [Join [home; configFileH]]
               else paths in
  paths ++ [Join ["/etc"; configFile]].

(** The loop of [getDefaultConfig] over [paths] and the return after it.
    An error of [readConfig] is always a [*ReadConfigError] that is not
    nil. *)
Fixpoint try_paths (conf : DnsAddrs) (paths : list string)
    : option (DnsAddrs * string * option error) :=
  match paths with
  | [] => Some (conf, "", Some (errorString "Configuration file not found"))
  | item :: rest =>
      '(conf', err) ← readConfig item;
      match err with
      | None => Some (conf', item, None)
      | Some (readConfigError e) =>
          if Exit e then Some (conf', item, Some (readConfigError e))
          else try_paths conf' rest
      | Some (errorString _) => try_paths conf' rest
      end
  end.

Definition getDefaultConfig : option (DnsAddrs * string * option error) :=
  try_paths [] default_paths.
End Config.

(** The faults of a configuration file that stop the lookup, with the
    message of each: a directory, a file that cannot be read, and contents
    from which no server is decoded. *)
Definition config_fault (json_Unmarshal : string -> DnsAddrs) (st : file_state)
    : option string :=
  match st with
  | Directory => Some "file is directory"
  | ReadFails err => Some (Error err)
  | Contents b =>
      if decide (length (json_Unmarshal b) = 0)
      then Some "file format is not correct, use '-s' to see a sample configuration"
      else None
  | NotExist | StatFails => None
  end.

(** ** The program *)

(** The variables [flag.Parse] sets, and [flag.Args()]. *)
Record Flags := {
  configfile : string;
  format : string;
  sample : bool;
  useTcp : bool;
  printconf : bool;
  help : bool;
  showver : bool;
  args : list string
}.

(** What a run leaves behind: the two output streams, the exit status and
    the exchanges made with name servers. *)
Record Run := {
  stdout : string;
  stderr : string;
  status : nat;
  exchanges : World
}.

Definition version : string := "v0.1-13".

Section Main.
Variable unicode_lower : string -> string.
Variable Fqdn : string -> string.
Variable Exchange : World -> Exchange_call -> list RR + error.
Variable json_text : json -> string.
Variable file_at : string -> file_state.
Variable json_Unmarshal : string -> DnsAddrs.
Variable Getenv : string -> string.
Variable Join : list string -> string.
(** The texts that [usage] and [writeSample] print. *)
Variable usage_text sample_text : string.
(** The order in which the goroutines of [query] make their exchange. *)
Variable schedule : DnsAddrs -> list (nat * DnsAddr).

Definition exit_with (out err : string) (code : nat) (w : World) : option Run :=
  Some {| stdout := out; stderr := err; status := code; exchanges := w |}.

(** [main] after [flag.Parse], started with the exchanges [w] behind it.
    [None] is a run-time panic. *)
Definition main (fl : Flags) (w : World) : option Run :=
  if help fl then exit_with (usage_text +:+ GoString.nl) "" 0 w
  else if sample fl then exit_with (sample_text +:+ GoString.nl) "" 0 w
  else if showver fl then
    exit_with ("IP resolver " +:+ version +:+ GoString.nl) "" 0 w
  else
    let format := if decide (format fl = "") then "std" else format fl in
    if decide (format <> "std" /\ format <> "json" /\ format <> "ip") then
      exit_with ""
        ("Format " +:+ format +:+ " is not correct, use '-h' for help" +:+ GoString.nl)
        1 w
    else
      '(conf, confpath, err) ←
        (if decide (configfile fl = "") then
           getDefaultConfig file_at json_Unmarshal Getenv Join
         else
           '(conf, err) ← readConfig file_at json_Unmarshal (configfile fl);
           Some (conf, configfile fl, err));
      match err with
      | Some e => exit_with "" (Error e +:+ GoString.nl) 1 w
      | None =>
          if printconf fl then
            exit_with
              (confpath +:+ GoString.nl +:+
               json_text (json_of_DnsAddrs conf) +:+ GoString.nl) "" 0 w
          else
            match args fl with
            | [] =>
                exit_with ""
                  ("Please input a domain for querying, use '-h' for help" +:+ GoString.nl)
                  1 w
            | domain :: _ =>
                let net := if useTcp fl then "tcp" else "udp" in
                '(result, w') ← query Fqdn Exchange conf domain net (schedule conf) w;
                if decide (format = "std") then
                  out ← output unicode_lower result;
                  exit_with out "" 0 w'
                else if decide (format = "json") then
                  exit_with (outputJson json_text result) "" 0 w'
                else if decide (format = "ip") then
                  exit_with (outputNormal result) "" 0 w'
                else exit_with "" "" 0 w'
            end
      end.
End Main.

(** ** The table as the specification describes it *)

Section Table.
Variable unicode_lower : string -> string.

(** What [output] leaves in a body slot of a server: the error category
    in row 0 of a server with an error, the union IP of the row for a
    server without error that has it, and else the value [old] the slot
    had. *)
Definition column_cell (allip : list string) (item : Answer) (j : nat)
    (old : string) : string :=
  match Answer_Error item with
  | Some e => if decide (j = 0) then errToString unicode_lower (Some e) else old
  | None =>
      match allip !! j with
      | Some x => if decide (x ∈ Answer_IP item) then x else old
      | None => old
      end
  end.

(** The cell of body row [j] and column [i]. *)
Definition table_cell (a : Answers) (j i : nat) : string :=
  match a !! i with
  | Some item => column_cell (allIP a) item j "-"
  | None => "-"
  end.

(** The body: [max 1 (length (allIP a))] rows of [length a] cells. *)
Definition table_body (a : Answers) : list (list string) :=
  (fun j => (fun i => table_cell a j i) <$> seq 0 (length a))
    <$> seq 0 (1 `max` length (allIP a)).

(** A printed row: its cells one after the other, then a line feed. *)
Definition print_row (cell : string -> string) (row : list string) : string :=
  foldr (fun c out => cell c +:+ out) GoString.nl row.

Definition print_rows (cell : string -> string) (rows : list (list string)) : string :=
  foldr (fun row out => print_row cell row +:+ out) "" rows.

(** The table: the row of names, the row of addresses, the rule and the
    body. *)
Definition table_text (a : Answers) : string :=
  print_row (GoString.Sprintf_s 17 (Some 16)) ((fun item => Name (Answer_DnsAddr item)) <$> a)
  +:+ print_row (GoString.Sprintf_s 17 (Some 16))
        ((fun item => Address (Answer_DnsAddr item)) <$> a)
  +:+ GoString.Repeat "-" (17 * length a) +:+ GoString.nl
  +:+ print_rows (GoString.Sprintf_s 17 None) (table_body a).

(** A header cell is 17 runes wide and holds at most 16 runes of the
    text, a prefix of it, then spaces. *)
Definition head_cell_ok (text cell : string) : Prop :=
  exists shown rest n,
    text = shown +:+ rest /\
    cell = shown +:+ GoString.Repeat " " n /\
    GoString.RuneCountInString shown <= 16 /\
    GoString.RuneCountInString cell = 17.

(** The shape of the table that [output] prints for [a]: two header rows
    and [max 1 (length (allIP a))] body rows of [length a] cells, every
    cell 17 runes wide, and between them a rule of [17 * length a]
    dashes. *)
Definition table_shape (a : Answers) : Prop :=
  exists names addresses body,
    output unicode_lower a
    = Some (print_row id names +:+ print_row id addresses
            +:+ GoString.Repeat "-" (17 * length a) +:+ GoString.nl
            +:+ print_rows id body) /\
    Forall2 (fun item cell => head_cell_ok (Name (Answer_DnsAddr item)) cell) a names /\
    Forall2 (fun item cell => head_cell_ok (Address (Answer_DnsAddr item)) cell) a addresses /\
    String.length (GoString.Repeat "-" (17 * length a)) = 17 * length a /\
    length body = 1 `max` length (allIP a) /\
    Forall (fun row =>
              length row = length a /\
              Forall (fun cell => GoString.RuneCountInString cell = 17) row) body.
End Table.

(** ** A sample run

    Two servers are configured.  The first does not answer in time, the
    second returns one A record. *)

Module Sample.
Definition AliDNS : DnsAddr := {| Name := "AliDNS"; Address := "223.5.5.5" |}.
Definition Google : DnsAddr := {| Name := "Google"; Address := "8.8.8.8" |}.
Definition conf : DnsAddrs := [AliDNS; Google].

Definition Fqdn (s : string) : string := s +:+ ".".

Definition Exchange (w : World) (call : Exchange_call) : list RR + error :=
  if decide (call_server call = "8.8.8.8:53")
  then inl [RR_other;
            RR_A {| octet1 := Byte.x5d; octet2 := Byte.xb8;
                    octet3 := Byte.xd8; octet4 := Byte.x22 |}]
  else inr (errorString "read udp 223.5.5.5:53: i/o timeout").

(** The goroutine of the second server makes its exchange first. *)
Definition sched : list (nat * DnsAddr) := [(1, Google); (0, AliDNS)].

(** What [query] returns for them. *)
Definition answers : Answers :=
  [ {| Answer_DnsAddr := AliDNS; Answer_IP := [];
       Answer_Error := Some (errorString "read udp 223.5.5.5:53: i/o timeout") |};
    {| Answer_DnsAddr := Google; Answer_IP := ["93.184.216.34"];
       Answer_Error := None |} ].

(** Two results without any IP. *)
Definition failed : Answers :=
  [ {| Answer_DnsAddr := AliDNS; Answer_IP := [];
       Answer_Error := Some (errorString "read udp 223.5.5.5:53: i/o timeout") |};
    {| Answer_DnsAddr := Google; Answer_IP := [];
       Answer_Error := Some (errorString "No result") |} ].

(** Two results with two addresses between them. *)
Definition two_ips : Answers :=
  [ {| Answer_DnsAddr := AliDNS; Answer_IP := ["93.184.216.34"; "10.0.0.1"];
       Answer_Error := None |};
    {| Answer_DnsAddr := Google; Answer_IP := ["93.184.216.34"];
       Answer_Error := None |} ].

(** A home directory with an empty server list in [.ipre]. *)
Definition Getenv (key : string) : string :=
  if decide (key = "HOME") then "/home/u" else "".

Definition Join (parts : list string) : string := String.concat "/" parts.

Definition file_at (path : string) : file_state :=
  if decide (path = "/home/u/.ipre") then Contents "[]" else NotExist.

Definition json_Unmarshal (b : string) : DnsAddrs := [].
End Sample.

(** ** Notions used by the further properties *)

(** The addresses of the A records of an answer section, in its order. *)
Definition a_addresses (answer : list RR) : list IPv4 :=
  omap (fun rr => match rr with RR_A a => Some a | RR_other => None end) answer.

(** The exchange that the goroutine of server [d] asks for: the server's
    address with port 53, and a timeout of 3 seconds. *)
Definition query_call (Fqdn : string -> string) (domain net : string) (d : DnsAddr)
    : Exchange_call :=
  {| call_net := net;
     call_timeout := Some 3%N;
     call_question := Fqdn domain;
     call_server := Address d +:+ ":53" |}.

(** A result as [query] builds it: an error comes with no IP. *)
Definition error_without_ips (item : Answer) : Prop :=
  is_Some (Answer_Error item) -> Answer_IP item = [].

(** ** A sample run with a configuration file *)

Module SampleRun.
Definition file_at (path : string) : file_state :=
  if decide (path = "/home/u/.ipre") then Contents "two servers" else NotExist.

Definition json_Unmarshal (b : string) : DnsAddrs :=
  if decide (b = "two servers") then Sample.conf else [].

Definition schedule (conf : DnsAddrs) : list (nat * DnsAddr) := reverse (launched conf).

Definition json_text (v : json) : string := "json".

Definition flags : Flags :=
  {| configfile := ""; format := ""; sample := false; useTcp := false;
     printconf := false; help := false; showver := false;
     args := ["example.com"] |}.

(** The same, with [-l] naming a file that does not exist. *)
Definition flags_load : Flags :=
  {| configfile := "/tmp/none.conf"; format := "ip"; sample := false; useTcp := true;
     printconf := false; help := false; showver := false;
     args := ["example.com"] |}.

(** The same, asking for the configuration to be printed, without a
    domain. *)
Definition flags_print : Flags :=
  {| configfile := ""; format := "json"; sample := false; useTcp := false;
     printconf := true; help := false; showver := false; args := [] |}.

(** A home directory whose [.config] cannot be searched. *)
Definition file_at_denied (path : string) : file_state :=
  if decide (path = "/home/u/.config/ipre.conf") then StatFails else file_at path.

(** An exchange that fails for every server. *)
Definition unreachable (w : World) (call : Exchange_call) : list RR + error :=
  inr (errorString "dial udp: network is unreachable").

(** An exchange whose replies hold no A record. *)
Definition no_records (w : World) (call : Exchange_call) : list RR + error :=
  inl [RR_other].
End SampleRun.

(** The configuration that [main] loads: the default lookup when [-l] is
    not given, and the named file otherwise. *)
Definition load_config (file_at : string -> file_state)
    (json_Unmarshal : string -> DnsAddrs) (Getenv : string -> string)
    (Join : list string -> string) (fl : Flags)
    : option (DnsAddrs * string * option error) :=
  if decide (configfile fl = "") then
    getDefaultConfig file_at json_Unmarshal Getenv Join
  else
    '(conf, err) ← readConfig file_at json_Unmarshal (configfile fl);
    Some (conf, configfile fl, err).

(** The flags under which [main] goes on to load the configuration: no
    help, sample or version asked for, and a format that is known. *)
Definition goes_on (fl : Flags) : Prop :=
  help fl = false /\ sample fl = false /\ showver fl = false /\
  format fl ∈ [""; "std"; "json"; "ip"].

(** The [Answer] that the goroutine of server [d] stores for what its
    exchange returns: the error of a failed exchange, with no IP; the
    error [No result] for an answer without A record; and else the texts
    of the A records, with no error. *)
Definition answer_for (d : DnsAddr) (reply : list RR + error) : Answer :=
  match reply with
  | inr err => {| Answer_DnsAddr := d; Answer_IP := []; Answer_Error := Some err |}
  | inl answer =>
      match a_records answer with
      | [] => {| Answer_DnsAddr := d; Answer_IP := [];
                 Answer_Error := Some (errorString "No result") |}
      | ips => {| Answer_DnsAddr := d; Answer_IP := ips; Answer_Error := None |}
      end
  end.

(** The [Answer] stored when [ARecords] rejects [net]. *)
Definition rejected_answer (d : DnsAddr) : Answer :=
  {| Answer_DnsAddr := d; Answer_IP := [];
     Answer_Error :=
       Some (errorString "The Parameter 'net' should only be 'tcp' or 'udp'.") |}.

(** ** Sample files with a fault *)

Module SampleFaults.
(** [json.Unmarshal] with the error it returns: on [[1]] it leaves one
    server with empty name and address in the list and reports the number
    it could not decode. *)
Definition Unmarshal (b : string) : DnsAddrs * option error :=
  if decide (b = "[1]") then
    ([ {| Name := ""; Address := "" |} ],
     Some (errorString "json: cannot unmarshal number into Go value of type main.DnsAddr"))
  else ([], Some (errorString "unexpected end of JSON input")).

Definition file_at (path : string) : file_state :=
  if decide (path = "/home/u/.ipre") then Contents "[1]" else NotExist.
End SampleFaults.

(** ** The text of [json.Marshal], and a reader of JSON text *)

Module JsonText.
Import GoString.

(** The quotation mark. *)
Definition dq : ascii := ascii_of_nat 34.

(** The backslash. *)
Definition backslash : ascii := ascii_of_nat 92.

(** [hex[n]] of [encoding/json]: the digits [0123456789abcdef]. *)
Definition hex_digit (n : N) : ascii :=
  match n with
  | 0 => "0" | 1 => "1" | 2 => "2" | 3 => "3" | 4 => "4" | 5 => "5" | 6 => "6"
  | 7 => "7" | 8 => "8" | 9 => "9" | 10 => "a" | 11 => "b" | 12 => "c"
  | 13 => "d" | 14 => "e" | _ => "f"
  end%N%char.

(** [htmlSafeSet[b]] for an ASCII byte: printable, and none of the
    quotation mark, [&], [<], [>] and the backslash. *)
Definition html_safe (c : ascii) : bool :=
  let b := byte_val c in
  ((32 <=? b) && negb (b =? 34) && negb (b =? 38) && negb (b =? 60)
   && negb (b =? 62) && negb (b =? 92))%N.

Section Marshal.
(** Whether this release of [encoding/json] writes the control character as
    a backslash and a letter; it is asked for backspace, form feed and tab
    only (releases differ on them). *)
Variable short_escape : ascii -> bool.

(** The escape written for an ASCII byte that is not [html_safe]. *)
Definition escape_ascii (c : ascii) : string :=
  let b := byte_val c in
  let u00 := "\u00" +:+ String (hex_digit (b / 16)) (String (hex_digit (b mod 16)) "") in
  if ((b =? 92) || (b =? 34))%N then String backslash (String c "")
  else if (b =? 10)%N then "\n"
  else if (b =? 13)%N then "\r"
  else if (b =? 8)%N then (if short_escape c then "\b" else u00)
  else if (b =? 12)%N then (if short_escape c then "\f" else u00)
  else if (b =? 9)%N then (if short_escape c then "\t" else u00)
  else u00.

(** The loop of [appendString] with [escapeHTML] set, once the [skip] bytes
    that finish the current rune are copied: an ASCII byte is copied or
    escaped; a byte that starts no rune is written as the escape of U+FFFD; the line
    and paragraph separators U+2028 and U+2029 are written as their
    escapes; every other rune is copied. *)
Fixpoint escape_from (skip : nat) (s : string) : string :=
  match s with
  | EmptyString => EmptyString
  | String c r =>
      match skip with
      | S k => String c (escape_from k r)
      | O =>
          if is_ascii_byte c then
            (if html_safe c then String c "" else escape_ascii c) +:+ escape_from 0 r
          else if decide (rune_size s = 1) then "\ufffd" +:+ escape_from 0 r
          else
            match r with
            | String c1 (String c2 r2) =>
                if ((byte_val c =? 226) && (byte_val c1 =? 128)
                    && ((byte_val c2 =? 168) || (byte_val c2 =? 169)))%N
                then "\u202" +:+ String (hex_digit (byte_val c2 mod 16)) (escape_from 0 r2)
                else String c (escape_from (rune_size s - 1) r)
            | _ => String c (escape_from (rune_size s - 1) r)
            end
      end
  end.

(** A string between quotation marks. *)
Definition quote (s : string) : string :=
  String dq (escape_from 0 s +:+ String dq "").

(** The text of a value: no space is written, a comma separates the
    elements of an array and the members of an object. *)
Fixpoint Marshal (v : json) : string :=
  match v with
  | JNull => "null"
  | JString s => quote s
  | JArray items => "[" +:+ String.concat "," (map Marshal items) +:+ "]"
  | JObject fields =>
      "{" +:+ String.concat ","
                (map (fun kv => quote (fst kv) +:+ ":" +:+ Marshal (snd kv)) fields)
      +:+ "}"
  end.
End Marshal.

(** *** Reading JSON text *)

Definition is_ws (c : ascii) : bool :=
  let b := byte_val c in ((b =? 32) || (b =? 9) || (b =? 10) || (b =? 13))%N.

Fixpoint skip_ws (s : string) : string :=
  match s with
  | EmptyString => EmptyString
  | String c r => if is_ws c then skip_ws r else s
  end.

Definition hex_val (c : ascii) : option N :=
  let b := byte_val c in
  if ((48 <=? b) && (b <=? 57))%N then Some (b - 48)%N
  else if ((97 <=? b) && (b <=? 102))%N then Some (b - 87)%N
  else if ((65 <=? b) && (b <=? 70))%N then Some (b - 55)%N
  else None.

(** The code point of four hexadecimal digits. *)
Definition hex4 (h1 h2 h3 h4 : ascii) : option N :=
  n1 ← hex_val h1; n2 ← hex_val h2; n3 ← hex_val h3; n4 ← hex_val h4;
  Some (((n1 * 16 + n2) * 16 + n3) * 16 + n4)%N.

(** The UTF-8 bytes of a code point below 65536; the halves of a surrogate
    pair are not read. *)
Definition utf8_encode (cp : N) : option string :=
  if (cp <? 128)%N then Some (String (ascii_of_N cp) "")
  else if (cp <? 2048)%N then
    Some (String (ascii_of_N (192 + cp / 64))
            (String (ascii_of_N (128 + cp mod 64)) ""))
  else if ((55296 <=? cp) && (cp <? 57344))%N then None
  else
    Some (String (ascii_of_N (224 + cp / 4096))
            (String (ascii_of_N (128 + (cp / 64) mod 64))
               (String (ascii_of_N (128 + cp mod 64)) ""))).

(** The character of a two-character escape. *)
Definition unescape (e : ascii) : option ascii :=
  let b := byte_val e in
  if (b =? 34)%N then Some dq
  else if (b =? 92)%N then Some backslash
  else if (b =? 47)%N then Some "/"%char
  else if (b =? 98)%N then Some (ascii_of_nat 8)
  else if (b =? 102)%N then Some (ascii_of_nat 12)
  else if (b =? 110)%N then Some (ascii_of_nat 10)
  else if (b =? 114)%N then Some (ascii_of_nat 13)
  else if (b =? 116)%N then Some (ascii_of_nat 9)
  else None.

(** The characters of a string after its opening quotation mark, up to the
    closing one, and the text after it. *)
Fixpoint parse_chars (s : string) : option (string * string) :=
  match s with
  | EmptyString => None
  | String c r =>
      if (byte_val c =? 34)%N then Some (EmptyString, r)
      else if (byte_val c =? 92)%N then
        match r with
        | EmptyString => None
        | String e r1 =>
            if (byte_val e =? 117)%N then
              match r1 with
              | String h1 (String h2 (String h3 (String h4 r2))) =>
                  cp ← hex4 h1 h2 h3 h4;
                  bytes ← utf8_encode cp;
                  '(t, rest) ← parse_chars r2;
                  Some (bytes +:+ t, rest)
              | _ => None
              end
            else
              c' ← unescape e;
              '(t, rest) ← parse_chars r1;
              Some (String c' t, rest)
        end
      else if (byte_val c <? 32)%N then None
      else
        '(t, rest) ← parse_chars r;
        Some (String c t, rest)
  end.

(** A value, the elements of an array up to its bracket, and the members
    of an object up to its brace; [fuel] bounds the nesting and the
    number of elements.  Numbers and the literals [true] and [false] are
    not read: no field of the records holds one. *)
Fixpoint parse_value (fuel : nat) (s : string) : option (json * string) :=
  match fuel with
  | O => None
  | S fuel' =>
      match skip_ws s with
      | EmptyString => None
      | String c r =>
          if (byte_val c =? 110)%N then
            match r with
            | String c1 (String c2 (String c3 r')) =>
                if ((byte_val c1 =? 117) && (byte_val c2 =? 108) && (byte_val c3 =? 108))%N
                then Some (JNull, r') else None
            | _ => None
            end
          else if (byte_val c =? 34)%N then
            '(str, r') ← parse_chars r; Some (JString str, r')
          else if (byte_val c =? 91)%N then
            match skip_ws r with
            | EmptyString => None
            | String c1 r1 =>
                if (byte_val c1 =? 93)%N then Some (JArray [], r1)
                else '(items, r') ← parse_elements fuel' r; Some (JArray items, r')
            end
          else if (byte_val c =? 123)%N then
            match skip_ws r with
            | EmptyString => None
            | String c1 r1 =>
                if (byte_val c1 =? 125)%N then Some (JObject [], r1)
                else '(fields, r') ← parse_members fuel' r; Some (JObject fields, r')
            end
          else None
      end
  end
with parse_elements (fuel : nat) (s : string) : option (list json * string) :=
  match fuel with
  | O => None
  | S fuel' =>
      '(v, r) ← parse_value fuel' s;
      match skip_ws r with
      | EmptyString => None
      | String c r1 =>
          if (byte_val c =? 44)%N then
            '(vs, r') ← parse_elements fuel' r1; Some (v :: vs, r')
          else if (byte_val c =? 93)%N then Some ([v], r1)
          else None
      end
  end
with parse_members (fuel : nat) (s : string) : option (list (string * json) * string) :=
  match fuel with
  | O => None
  | S fuel' =>
      match skip_ws s with
      | EmptyString => None
      | String q r =>
          if (byte_val q =? 34)%N then
            '(k, r1) ← parse_chars r;
            match skip_ws r1 with
            | EmptyString => None
            | String c r2 =>
                if (byte_val c =? 58)%N then
                  '(v, r3) ← parse_value fuel' r2;
                  match skip_ws r3 with
                  | EmptyString => None
                  | String c' r4 =>
                      if (byte_val c' =? 44)%N then
                        '(kvs, r') ← parse_members fuel' r4; Some ((k, v) :: kvs, r')
                      else if (byte_val c' =? 125)%N then Some ([(k, v)], r4)
                      else None
                  end
                else None
            end
          else None
      end
  end.

(** A JSON text: one value, with white space around it. *)
Definition parse (s : string) : option json :=
  '(v, rest) ← parse_value (S (String.length s)) s;
  match skip_ws rest with
  | EmptyString => Some v
  | String _ _ => None
  end.

(** *** Well-formed UTF-8 *)

(** [utf8.ValidString], once the [skip] bytes that finish the current rune
    are passed: every rune starts with an ASCII byte or spans more than
    one byte. *)
Fixpoint valid_from (skip : nat) (s : string) : bool :=
  match s with
  | EmptyString => true
  | String c r =>
      match skip with
      | S k => valid_from k r
      | O =>
          (is_ascii_byte c || negb (Nat.eqb (rune_size s) 1))
          && valid_from (rune_size s - 1) r
      end
  end.

Definition valid_utf8 (s : string) : bool := valid_from 0 s.

(** The first [n] bytes, as far as there are, are no ASCII bytes. *)
Fixpoint high_bytes (n : nat) (s : string) : bool :=
  match n, s with
  | S k, String c r => negb (is_ascii_byte c) && high_bytes k r
  | _, _ => true
  end.

(** The strings of a value are well-formed UTF-8. *)
Fixpoint valid_json (v : json) : bool :=
  match v with
  | JNull => true
  | JString s => valid_utf8 s
  | JArray items => forallb valid_json items
  | JObject fields => forallb (fun kv => valid_utf8 (fst kv) && valid_json (snd kv)) fields
  end.

(** The fuel that reading the text of a value takes. *)
Fixpoint fuel_of (v : json) : nat :=
  match v with
  | JNull => 1
  | JString _ => 1
  | JArray items => 1 + length items + list_max (map fuel_of items)
  | JObject fields => 1 + length fields + list_max (map (fun kv => fuel_of (snd kv)) fields)
  end.

(** What reading back asks of a value: with enough fuel the text of the
    value, as [Marshal] writes it, reads as the value and leaves what
    follows the text. *)
Definition reads_back (short_escape : ascii -> bool) (v : json) : Prop :=
  valid_json v = true ->
  forall fuel rest, fuel_of v <= fuel ->
    parse_value fuel (Marshal short_escape v +:+ rest) = Some (v, rest).

End JsonText.

(** A text between quotation marks, for the examples. *)
Definition quoted (s : string) : string :=
  String JsonText.dq (s +:+ String JsonText.dq "").

(** The strings of a result are well-formed UTF-8. *)
Definition valid_Answer (item : Answer) : Prop :=
  JsonText.valid_utf8 (Name (Answer_DnsAddr item)) = true /\
  JsonText.valid_utf8 (Address (Answer_DnsAddr item)) = true /\
  (forall ip, ip ∈ Answer_IP item -> JsonText.valid_utf8 ip = true) /\
  (forall e, Answer_Error item = Some e -> JsonText.valid_utf8 (Error e) = true).

(** * Properties *)

(** ** Strings *)

Module GoStringFacts.
Import GoString.

Lemma append_nil_r s : s +:+ "" = s.
Proof. induction s as [|c s IH]; simpl; congruence. Qed.

Lemma append_assoc s t u : (s +:+ t) +:+ u = s +:+ (t +:+ u).
Proof. induction s as [|c s IH]; simpl; congruence. Qed.

Lemma length_append s t : String.length (s +:+ t) = String.length s + String.length t.
Proof. induction s as [|c s IH]; simpl; congruence. Qed.

Lemma length_Repeat c n : String.length (Repeat c n) = n.
Proof. induction n; simpl; congruence. Qed.

Lemma HasPrefix_spec s p : HasPrefix s p = true <-> exists post, s = p +:+ post.
Proof.
  revert s. induction p as [|c p IH]; intros s; simpl.
  - split; [intros _; by exists s | by destruct s].
  - destruct s as [|d s]; simpl.
    + split; [done | intros [post H]; discriminate].
    + destruct (decide (c = d)) as [->|Hne].
      * rewrite IH. split; intros [post H]; exists post; congruence.
      * split; [done | intros [post H]; congruence].
Qed.

Lemma Contains_spec s p :
  Contains s p = true <-> exists pre post, s = pre +:+ p +:+ post.
Proof.
  induction s as [|c s IH].
  - change (Contains "" p) with (HasPrefix "" p || false).
    rewrite orb_false_r, HasPrefix_spec. split.
    + intros [post H]. by exists "", post.
    + intros [[|d pre] [post H]]; [eauto | discriminate].
  - change (Contains (String c s) p)
      with (HasPrefix (String c s) p || Contains s p).
    rewrite orb_true_iff, IH, HasPrefix_spec. split.
    + intros [[post H]|[pre [post H]]].
      * by exists "", post.
      * exists (String c pre), post. simpl. congruence.
    + intros [[|d pre] [post H]]; simpl in H.
      * left. eauto.
      * right. exists pre, post. congruence.
Qed.

Lemma isASCII_append s t : isASCII (s +:+ t) = isASCII s && isASCII t.
Proof. induction s as [|c s IH]; simpl; [done|]. by rewrite IH, andb_assoc. Qed.

Lemma lower_ascii_append s t : lower_ascii (s +:+ t) = lower_ascii s +:+ lower_ascii t.
Proof. induction s as [|c s IH]; simpl; congruence. Qed.

Lemma is_ascii_lower_byte c : is_ascii_byte (lower_byte c) = is_ascii_byte c.
Proof. by destruct c as [[] [] [] [] [] [] [] []]. Qed.

Lemma isASCII_lower_ascii s : isASCII (lower_ascii s) = isASCII s.
Proof. induction s as [|c s IH]; simpl; [done|]. by rewrite IH, is_ascii_lower_byte. Qed.

(** A split of the lowered string comes from a split of the string. *)
Lemma lower_ascii_split s x y :
  lower_ascii s = x +:+ y ->
  exists a b, s = a +:+ b /\ lower_ascii a = x /\ lower_ascii b = y.
Proof.
  revert s. induction x as [|c x IH]; intros s H; simpl in H.
  - by exists "", s.
  - destruct s as [|d s]; [discriminate|]. simpl in H.
    injection H as Hc Hs. destruct (IH _ Hs) as (a & b & -> & <- & <-).
    exists (String d a), b. simpl. by rewrite Hc.
Qed.

Lemma lower_ascii_keeps_ascii_runs : keeps_ascii_runs lower_ascii.
Proof.
  intros pre mid post _. exists (lower_ascii pre), (lower_ascii post).
  by rewrite !lower_ascii_append.
Qed.

(** On ASCII text, containment after [ToLower] is containment up to the
    case of letters. *)
Lemma Contains_ToLower_ascii unicode_lower s phrase :
  isASCII s = true ->
  Contains (ToLower unicode_lower s) phrase = true <-> ci_occurs phrase s.
Proof.
  intros Hs. unfold ToLower. rewrite Hs, Contains_spec. split.
  - intros (pre & post & H).
    apply lower_ascii_split in H as (a & b & -> & <- & H).
    apply lower_ascii_split in H as (m & c & -> & <- & <-).
    by exists a, m, c.
  - intros (pre & mid & post & -> & <-).
    exists (lower_ascii pre), (lower_ascii post). by rewrite !lower_ascii_append.
Qed.

(** On any text, an occurrence of an ASCII phrase up to case is found after
    [ToLower]. *)
Lemma Contains_ToLower_occurs unicode_lower s phrase :
  keeps_ascii_runs unicode_lower -> isASCII phrase = true ->
  ci_occurs phrase s -> Contains (ToLower unicode_lower s) phrase = true.
Proof.
  intros Hu Hp Hocc. destruct (isASCII s) eqn:Hs.
  - by apply Contains_ToLower_ascii.
  - destruct Hocc as (pre & mid & post & -> & <-).
    unfold ToLower. rewrite Hs. rewrite isASCII_lower_ascii in Hp.
    destruct (Hu pre mid post Hp) as (pre' & post' & ->).
    apply Contains_spec. eauto.
Qed.

End GoStringFacts.

(** ** Error categories *)

Section ErrToStringFacts.
Import GoString GoStringFacts.
Variable unicode_lower : string -> string.

Lemma errToString_rules (e : error) :
  errToString unicode_lower (Some e)
  = first_match (f unicode_lower (Error e)) category_rules "Connect error".
Proof. reflexivity. Qed.

Lemma errToString_timeout (e : error) :
  f unicode_lower (Error e) "timeout" = true ->
  errToString unicode_lower (Some e) = "Timeout".
Proof. intros H. simpl. by rewrite H. Qed.
End ErrToStringFacts.

(** C4.  [errToString] is a function of the error alone.  On an error it
    returns the label of the first rule, in the fixed order of
    [category_rules] (timeout, refused the network connection, no service
    is operating, forcibly closed by the remote host, no result), whose
    phrase is contained in the lowered message, and [Connect error] when
    no rule matches.  The match ignores the case of letters: on an ASCII
    message a phrase matches exactly when it occurs up to case, and on any
    message an occurrence up to case matches.  A message in which both
    [timeout] and [no service is operating] occur up to case is mapped to
    [Timeout]. *)
Theorem errToString_first_match_wins (unicode_lower : string -> string) :
  GoString.keeps_ascii_runs unicode_lower ->
  (forall err,
     errToString unicode_lower err =
     match err with
     | None => ""
     | Some e => first_match (f unicode_lower (Error e)) category_rules "Connect error"
     end) /\
  (forall s phrase, GoString.isASCII s = true ->
     (f unicode_lower s phrase = true <-> GoString.ci_occurs phrase s)) /\
  (forall s phrase, In phrase (category_rules.*1) ->
     GoString.ci_occurs phrase s -> f unicode_lower s phrase = true) /\
  (forall e, GoString.ci_occurs "timeout" (Error e) ->
     GoString.ci_occurs "no service is operating" (Error e) ->
     errToString unicode_lower (Some e) = "Timeout").
Proof.
  intros Hu. split; [|split; [|split]].
  - intros [e|]; [apply errToString_rules | done].
  - intros s phrase Hs. by apply GoStringFacts.Contains_ToLower_ascii.
  - intros s phrase Hin Hocc.
    apply GoStringFacts.Contains_ToLower_occurs; [done| |done].
    simpl in Hin. by repeat destruct Hin as [<-|Hin].
  - intros e Ht _. apply errToString_timeout.
    by apply GoStringFacts.Contains_ToLower_occurs.
Qed.

(** The rule order at work: the message below holds both phrases, in
    upper and mixed case, and is mapped to [Timeout]. *)
Lemma errToString_first_match_wins_witness :
  errToString GoString.lower_ascii
    (Some (errorString "read udp: No service is operating; i/o TIMEOUT")) = "Timeout".
Proof.
  pose proof (errToString_first_match_wins GoString.lower_ascii
                GoStringFacts.lower_ascii_keeps_ascii_runs) as (_ & _ & _ & H).
  apply (H (errorString "read udp: No service is operating; i/o TIMEOUT")).
  - by exists "read udp: No service is operating; i/o ", "TIMEOUT", "".
  - by exists "read udp: ", "No service is operating", "; i/o TIMEOUT".
Defined.

(** ** The aggregator *)

Section AllIP.
Implicit Types (a : Answers) (i : gmap string bool) (ip : string).

Lemma insert_keys_lookup (l : list string) i ip :
  is_Some (foldl (fun i ip => <[ip := true]> i) i l !! ip)
  <-> is_Some (i !! ip) \/ ip ∈ l.
Proof.
  revert i. induction l as [|x l IH]; intros i; simpl.
  - rewrite elem_of_nil. tauto.
  - rewrite IH, elem_of_cons. destruct (decide (x = ip)) as [->|Hne].
    + rewrite lookup_insert_eq. split; [intros _|]; eauto.
    + rewrite lookup_insert_ne by done. split; intros H; [tauto|].
      destruct H as [H|[H|H]]; [by left|congruence|by right].
Qed.

Lemma allIP_map_lookup_from a i ip :
  is_Some (foldl (fun i item =>
             foldl (fun i ip => <[ip := true]> i) i (Answer_IP item)) i a !! ip)
  <-> is_Some (i !! ip) \/ exists item, item ∈ a /\ ip ∈ Answer_IP item.
Proof.
  revert i. induction a as [|item a IH]; intros i; simpl.
  - split; [by left|]. intros [H|(item & H & _)]; [done|].
    by apply elem_of_nil in H.
  - rewrite IH, insert_keys_lookup. split.
    + intros [[H|H]|(item' & H1 & H2)]; [by left| |].
      * right. exists item. split; [left|done].
      * right. exists item'. split; [by right|done].
    + intros [H|(item' & H1 & H2)]; [by left; left|].
      apply elem_of_cons in H1 as [->|H1]; [by left; right|].
      right. eauto.
Qed.

(** The keys of the map are the IP strings of the results. *)
Lemma allIP_map_lookup a ip :
  is_Some (allIP_map a !! ip) <-> exists item, item ∈ a /\ ip ∈ Answer_IP item.
Proof.
  unfold allIP_map. rewrite allIP_map_lookup_from, lookup_empty.
  split; [intros [[? H]|H]; [done|done] | by right].
Qed.

Lemma elem_of_map_keys i ip : ip ∈ (map_to_list i).*1 <-> is_Some (i !! ip).
Proof.
  rewrite list_elem_of_fmap. split.
  - intros ([k v] & -> & H). apply elem_of_map_to_list in H. by exists v.
  - intros [v H]. exists (ip, v). split; [done|]. by apply elem_of_map_to_list.
Qed.

Lemma sort_Strings_Permutation (x : list string) : sort_Strings x ≡ₚ x.
Proof. apply merge_sort_Permutation. Qed.

Lemma sort_Strings_Sorted (x : list string) : StronglySorted String.le (sort_Strings x).
Proof. apply StronglySorted_merge_sort; apply _. Qed.

(** Sorting does not depend on the order in which the keys were
    collected. *)
Lemma sort_Strings_order (x y : list string) :
  x ≡ₚ y -> sort_Strings x = sort_Strings y.
Proof.
  intros H. apply (StronglySorted_unique String.le); try apply sort_Strings_Sorted.
  by rewrite !sort_Strings_Permutation.
Qed.

Lemma allIP_from_any_order a keys : key_order a keys -> allIP_from keys = allIP a.
Proof. intros H. by apply sort_Strings_order. Qed.

Lemma elem_of_allIP a ip :
  ip ∈ allIP a <-> exists item, item ∈ a /\ ip ∈ Answer_IP item.
Proof.
  unfold allIP, allIP_from. by rewrite sort_Strings_Permutation,
    elem_of_map_keys, allIP_map_lookup.
Qed.

Lemma NoDup_allIP a : NoDup (allIP a).
Proof.
  unfold allIP, allIP_from. rewrite sort_Strings_Permutation.
  apply NoDup_fst_map_to_list.
Qed.

Lemma String_le_ne_lt (x y : string) : String.le x y -> x <> y -> (x <? y)%string = true.
Proof.
  unfold String.le, String.leb, String.ltb. intros Hle Hne.
  destruct (x ?= y)%string eqn:Hc; [|done|done].
  by apply String.compare_eq_iff in Hc.
Qed.

(** A list without repetition that is sorted by [<=] ascends strictly. *)
Lemma StronglySorted_NoDup_lt (l : list string) (m n : nat) (x y : string) :
  StronglySorted String.le l -> NoDup l -> m < n ->
  l !! m = Some x -> l !! n = Some y -> (x <? y)%string = true.
Proof.
  intros Hs. revert m n. induction Hs as [|z l Hs IH Hz]; intros m n Hnd Hlt Hm Hn.
  - done.
  - apply NoDup_cons in Hnd as [Hz' Hnd]. destruct n as [|n]; [lia|].
    simpl in Hn. destruct m as [|m]; simpl in Hm.
    + injection Hm as ->. assert (y ∈ l) as Hy by by eapply list_elem_of_lookup_2.
      apply String_le_ne_lt.
      * rewrite Forall_forall in Hz. by apply Hz.
      * intros ->. done.
    + apply (IH m n); [done|lia|done|done].
Qed.
End AllIP.

(** C2.  Whatever the order in which the range over the map visits the
    keys, [allIP] returns exactly the IP strings that occur in the [ips]
    list of some result, each once, in strictly ascending byte-wise
    order. *)
Theorem allIP_sorted_union (a : Answers) (keys : list string) :
  key_order a keys ->
  (forall ip, ip ∈ allIP_from keys <-> exists item, item ∈ a /\ ip ∈ Answer_IP item) /\
  NoDup (allIP_from keys) /\
  (forall i j x y, i < j ->
     allIP_from keys !! i = Some x -> allIP_from keys !! j = Some y ->
     (x <? y)%string = true).
Proof.
  intros Hk. rewrite (allIP_from_any_order a keys Hk). split; [|split].
  - apply elem_of_allIP.
  - apply NoDup_allIP.
  - intros i j x y. apply StronglySorted_NoDup_lt.
    + apply sort_Strings_Sorted.
    + apply NoDup_allIP.
Qed.

(** ** The fan-out engine *)

Section QueryFacts.
Variable Fqdn : string -> string.
Variable Exchange : World -> Exchange_call -> list RR + error.
Variables domain net : string.

Local Abbreviation arecords := (ARecords Fqdn Exchange).
Local Abbreviation answer_of := (goroutine_answer Fqdn Exchange domain net).
Local Abbreviation go := (goroutine Fqdn Exchange domain net).
Local Abbreviation run := (run_goroutines Fqdn Exchange domain net).

(** [ARecords] makes at most one exchange, and none when it rejects
    [net]. *)
Lemma ARecords_rejects_net nameserver port timeout w :
  net <> "tcp" /\ net <> "udp" ->
  arecords domain nameserver port net timeout w
  = (([], Some (errorString "The Parameter 'net' should only be 'tcp' or 'udp'.")), w).
Proof. intros H. unfold ARecords. by rewrite decide_True. Qed.

Lemma ARecords_one_exchange nameserver port timeout w :
  net = "tcp" \/ net = "udp" ->
  exists call, (arecords domain nameserver port net timeout w).2 = w ++ [call].
Proof.
  intros H. unfold ARecords.
  rewrite decide_False by (intros [? ?]; destruct H; done).
  eexists. by destruct (Exchange _ _).
Qed.

(** An error of [ARecords] is the rejection of [net], made before any
    exchange, or the error of its one exchange. *)
Lemma ARecords_error_cases nameserver port timeout w e :
  (arecords domain nameserver port net timeout w).1.2 = Some e ->
  (net <> "tcp" /\ net <> "udp" /\
   e = errorString "The Parameter 'net' should only be 'tcp' or 'udp'." /\
   (arecords domain nameserver port net timeout w).2 = w) \/
  ((net = "tcp" \/ net = "udp") /\
   exists call, Exchange w call = inr e /\
     (arecords domain nameserver port net timeout w).2 = w ++ [call]).
Proof.
  unfold ARecords. destruct (decide _) as [[H1 H2]|Hn]; simpl.
  - intros [= <-]. by left.
  - intros He. right. split.
    + destruct (decide (net = "tcp")); [by left|].
      destruct (decide (net = "udp")); [by right|]. by destruct Hn.
    + eexists. destruct (Exchange _ _) eqn:Hex; simpl in *; [done|].
      injection He as ->. done.
Qed.

(** An error of [ARecords] is stored, with no IP. *)
Lemma goroutine_answer_error d w e :
  (arecords domain (Address d) 53 net [3%N] w).1.2 = Some e ->
  (answer_of d w).1
  = {| Answer_DnsAddr := d; Answer_IP := []; Answer_Error := Some e |}.
Proof.
  unfold goroutine_answer.
  destruct (arecords _ _ _ _ _ _) as [[ip err] w']. simpl. by intros ->.
Qed.

(** No error and no A record: the answer holds the error [No result]. *)
Lemma goroutine_answer_no_result d w :
  (arecords domain (Address d) 53 net [3%N] w).1 = ([], None) ->
  (answer_of d w).1
  = {| Answer_DnsAddr := d; Answer_IP := [];
       Answer_Error := Some (errorString "No result") |}.
Proof.
  unfold goroutine_answer.
  destruct (arecords _ _ _ _ _ _) as [[ip err] w']. simpl. by intros [= -> ->].
Qed.

(** No error and some A records: the answer holds them, with no error. *)
Lemma goroutine_answer_ips d w ip :
  (arecords domain (Address d) 53 net [3%N] w).1 = (ip, None) -> ip <> [] ->
  (answer_of d w).1
  = {| Answer_DnsAddr := d; Answer_IP := ip; Answer_Error := None |}.
Proof.
  unfold goroutine_answer.
  destruct (arecords _ _ _ _ _ _) as [[ip' err] w']. simpl. intros [= -> ->] Hne.
  rewrite decide_False; [done|]. by destruct ip.
Qed.

Lemma goroutine_answer_world d w :
  (answer_of d w).2 = (arecords domain (Address d) 53 net [3%N] w).2.
Proof.
  unfold goroutine_answer.
  by destruct (arecords _ _ _ _ _ _) as [[ip err] w'].
Qed.

Lemma goroutine_answer_server d w : Answer_DnsAddr (answer_of d w).1 = d.
Proof.
  unfold goroutine_answer.
  destruct (arecords _ _ _ _ _ _) as [[ip [e|]] w']; simpl; [done|].
  by destruct (decide _).
Qed.

(** The outcome is an IP list or an error, never both and never
    neither. *)
Lemma goroutine_answer_outcome d w :
  let ans := (answer_of d w).1 in
  (Answer_IP ans <> [] /\ Answer_Error ans = None) \/
  (Answer_IP ans = [] /\ is_Some (Answer_Error ans)).
Proof.
  unfold goroutine_answer.
  destruct (arecords _ _ _ _ _ _) as [[ip [e|]] w']; simpl; [by right|].
  destruct (decide _) as [H|H]; simpl; [by right|left].
  split; [|done]. by intros ->.
Qed.

Lemma goroutine_spec n d (answers : Answers) w :
  n < length answers ->
  go n d answers w
  = Some (<[n := (answer_of d w).1]> answers, (answer_of d w).2).
Proof.
  intros Hn. unfold goroutine, store.
  destruct (answer_of d w) as [ans w']. by rewrite decide_True.
Qed.

(** The goroutines, run in any order with distinct slots in range, fill
    exactly their slots, each with the answer built for its server at the
    moment it ran. *)
Lemma run_goroutines_spec (sched : list (nat * DnsAddr)) (answers : Answers) w :
  (forall n d, (n, d) ∈ sched -> n < length answers) ->
  NoDup sched.*1 ->
  exists answers' w',
    run sched answers w = Some (answers', w') /\
    length answers' = length answers /\
    (forall i, i ∉ sched.*1 -> answers' !! i = answers !! i) /\
    (forall i d, (i, d) ∈ sched ->
       exists w0, answers' !! i = Some (answer_of d w0).1).
Proof.
  revert answers w. induction sched as [|[n d] rest IH]; intros answers w Hin Hnd.
  - exists answers, w. do 3 (split; [done|]).
    intros i d H. by apply elem_of_nil in H.
  - simpl in Hnd. apply NoDup_cons in Hnd as [Hn Hnd].
    assert (n < length answers) as Hlt by (apply (Hin n d); left).
    simpl. rewrite goroutine_spec by done. simpl.
    set (answers1 := <[n := _]> answers).
    destruct (IH answers1 (answer_of d w).2) as (answers' & w' & Hrun & Hlen & Hout & Hslot).
    { intros m d' H. unfold answers1. rewrite length_insert.
      apply (Hin m d'). by right. }
    { done. }
    exists answers', w'. split; [done|]. split; [|split].
    + by rewrite Hlen; unfold answers1; rewrite length_insert.
    + intros i Hi. apply not_elem_of_cons in Hi as [Hne Hi].
      rewrite (Hout i Hi). unfold answers1. by rewrite list_lookup_insert_ne.
    + intros i d' Hi. apply elem_of_cons in Hi as [[= -> ->]|Hi]; [|by apply Hslot].
      exists w. rewrite (Hout n Hn). unfold answers1.
      by rewrite list_lookup_insert_eq.
Qed.

(** The exchanges made: none when [net] is rejected, one per goroutine
    otherwise. *)
Lemma run_goroutines_world (sched : list (nat * DnsAddr)) (answers answers' : Answers) w w' :
  run sched answers w = Some (answers', w') ->
  (net <> "tcp" /\ net <> "udp" -> w' = w) /\
  (net = "tcp" \/ net = "udp" ->
     exists calls, w' = w ++ calls /\ length calls = length sched).
Proof.
  revert answers w. induction sched as [|[n d] rest IH]; intros answers w Hrun; simpl in Hrun.
  - injection Hrun as <- <-. split; [done|]. intros _. exists []. by rewrite app_nil_r.
  - unfold goroutine in Hrun.
    pose proof (goroutine_answer_world d w) as Hw.
    destruct (answer_of d w) as [ans w1]. simpl in Hw, Hrun.
    destruct (store answers n ans) as [answers1|]; [|done]. simpl in Hrun.
    destruct (IH _ _ Hrun) as [Hbad Hgood]. split.
    + intros Hnet. rewrite (Hbad Hnet), Hw.
      by rewrite ARecords_rejects_net.
    + intros Hnet. destruct (Hgood Hnet) as (calls & -> & Hlen).
      destruct (ARecords_one_exchange (Address d) 53 [3%N] w Hnet) as [call Hcall].
      exists (call :: calls). rewrite Hw, Hcall, <- app_assoc. simpl.
      by rewrite Hlen.
Qed.
End QueryFacts.

Lemma launched_fst (dns : DnsAddrs) : (launched dns).*1 = seq 0 (length dns).
Proof.
  unfold launched. apply list_eq. intros i.
  rewrite list_lookup_fmap, list_lookup_imap.
  destruct (dns !! i) as [d|] eqn:H; simpl.
  - apply lookup_lt_Some in H. by rewrite lookup_seq_lt.
  - apply lookup_ge_None in H. by rewrite lookup_seq_ge.
Qed.

Lemma elem_of_launched (dns : DnsAddrs) i d : (i, d) ∈ launched dns <-> dns !! i = Some d.
Proof.
  unfold launched. rewrite elem_of_lookup_imap. split.
  - by intros (j & y & [= -> ->] & H).
  - intros H. by exists i, d.
Qed.

Section QueryTheorems.
Variable Fqdn : string -> string.
Variable Exchange : World -> Exchange_call -> list RR + error.
Variables domain net : string.

Local Abbreviation arecords := (ARecords Fqdn Exchange).
Local Abbreviation answer_of := (goroutine_answer Fqdn Exchange domain net).
Local Abbreviation query' := (query Fqdn Exchange).

(** [query] under any schedule of its goroutines: it returns, every slot
    holds the answer built for the server of that slot, and the exchanges
    made are counted. *)
Lemma query_spec (dns : DnsAddrs) (sched : list (nat * DnsAddr)) (w : World) :
  schedule_of dns sched ->
  exists answers w',
    query' dns domain net sched w = Some (answers, w') /\
    length answers = length dns /\
    (forall i d, dns !! i = Some d ->
       exists w0, answers !! i = Some (answer_of d w0).1) /\
    (net <> "tcp" /\ net <> "udp" -> w' = w) /\
    (net = "tcp" \/ net = "udp" ->
       exists calls, w' = w ++ calls /\ length calls = length dns).
Proof.
  intros Hs. unfold schedule_of in Hs. unfold query.
  destruct (run_goroutines_spec Fqdn Exchange domain net sched
              (replicate (length dns) zero_Answer) w)
    as (answers & w' & Hrun & Hlen & _ & Hslot).
  { intros n d H. rewrite Hs in H. apply elem_of_launched in H.
    rewrite length_replicate. by eapply lookup_lt_Some. }
  { rewrite Hs, launched_fst. apply NoDup_seq. }
  exists answers, w'. split; [done|]. split; [by rewrite Hlen, length_replicate|].
  split.
  - intros i d H. apply Hslot. rewrite Hs. by apply elem_of_launched.
  - destruct (run_goroutines_world Fqdn Exchange domain net _ _ _ _ _ Hrun)
      as [Hbad Hgood].
    split; [done|]. intros Hnet. destruct (Hgood Hnet) as (calls & -> & Hc).
    exists calls. split; [done|].
    rewrite Hc, Hs. unfold launched. by rewrite length_imap.
Qed.
End QueryTheorems.

(** C1.  For every server list, domain and network name, and whatever the
    order in which the goroutines run, [query] returns a slice as long as
    the server list whose element [i] carries server [i] of the list. *)
Theorem query_aligned (Fqdn : string -> string)
    (Exchange : World -> Exchange_call -> list RR + error)
    (dns : DnsAddrs) (domain net : string) (sched : list (nat * DnsAddr)) (w : World) :
  schedule_of dns sched ->
  exists answers w',
    query Fqdn Exchange dns domain net sched w = Some (answers, w') /\
    length answers = length dns /\
    (forall i d, dns !! i = Some d ->
       exists ans, answers !! i = Some ans /\ Answer_DnsAddr ans = d).
Proof.
  intros Hs.
  destruct (query_spec Fqdn Exchange domain net dns sched w Hs)
    as (answers & w' & Hq & Hlen & Hslot & _).
  exists answers, w'. split; [done|]. split; [done|].
  intros i d Hi. destruct (Hslot i d Hi) as [w0 H].
  eexists. split; [done|]. apply goroutine_answer_server.
Qed.

(** C3.  A goroutine whose [ARecords] call returns no error and no A
    record stores the error [No result] with an empty IP list.  Hence every
    element of the slice that [query] returns has either a non-empty IP
    list and no error, or an error and an empty IP list. *)
Theorem query_no_result_is_error (Fqdn : string -> string)
    (Exchange : World -> Exchange_call -> list RR + error)
    (dns : DnsAddrs) (domain net : string) (sched : list (nat * DnsAddr)) (w : World) :
  schedule_of dns sched ->
  exists answers w',
    query Fqdn Exchange dns domain net sched w = Some (answers, w') /\
    (forall i d, dns !! i = Some d ->
       exists w0 ans,
         answers !! i = Some ans /\
         ans = (goroutine_answer Fqdn Exchange domain net d w0).1 /\
         ((ARecords Fqdn Exchange domain (Address d) 53 net [3%N] w0).1 = ([], None) ->
          ans = {| Answer_DnsAddr := d; Answer_IP := [];
                   Answer_Error := Some (errorString "No result") |})) /\
    (forall ans, ans ∈ answers ->
       (Answer_IP ans <> [] /\ Answer_Error ans = None) \/
       (Answer_IP ans = [] /\ is_Some (Answer_Error ans))).
Proof.
  intros Hs.
  destruct (query_spec Fqdn Exchange domain net dns sched w Hs)
    as (answers & w' & Hq & Hlen & Hslot & _).
  exists answers, w'. split; [done|]. split.
  - intros i d Hi. destruct (Hslot i d Hi) as [w0 H].
    exists w0. eexists. split; [done|]. split; [done|].
    apply goroutine_answer_no_result.
  - intros ans Hans. apply list_elem_of_lookup in Hans as [i Hi].
    assert (i < length dns) as Hlt by (rewrite <- Hlen; by eapply lookup_lt_Some).
    apply lookup_lt_is_Some in Hlt as [d Hd].
    destruct (Hslot i d Hd) as [w0 H]. rewrite Hi in H. injection H as ->.
    apply goroutine_answer_outcome.
Qed.

(** ** Widths in runes *)

Module FmtFacts.
Import GoString GoStringFacts.

Lemma second_ok_space c : second_ok c " " = false.
Proof. unfold second_ok. by repeat case_match. Qed.

Lemma is_cont_space : is_cont " " = false.
Proof. reflexivity. Qed.

Lemma rune_size_pos c r : 1 <= rune_size (String c r).
Proof.
  unfold rune_size.
  destruct (lead_size c) as [|[|[|[|[|?]]]]]; try lia;
    destruct r as [|c1 [|c2 [|c3 r]]]; try lia; case_match; lia.
Qed.

Lemma rune_size_le s : rune_size s <= String.length s.
Proof.
  destruct s as [|c r]; [done|]. unfold rune_size.
  destruct (lead_size c) as [|[|[|[|[|?]]]]]; simpl; try lia;
    destruct r as [|c1 [|c2 [|c3 r]]]; simpl; try lia; case_match; lia.
Qed.

(** The first rune is decided by the bytes it spans. *)
Lemma rune_size_prefix c t rest :
  rune_size (String c (t +:+ rest)) - 1 <= String.length t ->
  rune_size (String c t) = rune_size (String c (t +:+ rest)).
Proof.
  unfold rune_size.
  destruct (lead_size c) as [|[|[|[|[|?]]]]]; try done;
    destruct t as [|c1 [|c2 [|c3 t]]]; simpl; try done;
    destruct rest as [|d1 [|d2 [|d3 rest]]]; simpl; try done;
    repeat case_match; simpl; try done; lia.
Qed.

(** Spaces after a string do not change its first rune. *)
Lemma rune_size_spaces c r k :
  rune_size (String c (r +:+ Repeat " " k)) = rune_size (String c r).
Proof.
  unfold rune_size.
  destruct (lead_size c) as [|[|[|[|[|?]]]]]; try done;
    destruct r as [|c1 [|c2 [|c3 r]]]; simpl; try done;
    destruct k as [|[|[|k]]]; simpl; try done;
    rewrite ?second_ok_space, ?is_cont_space, ?andb_false_r; try done;
    repeat case_match; simpl in *; try done.
Qed.

Lemma count_from_spaces k : count_from 0 (Repeat " " k) = k.
Proof. induction k as [|k IH]; [done|]. simpl. by rewrite IH. Qed.

Lemma count_from_append_spaces s skip k :
  skip <= String.length s ->
  count_from skip (s +:+ Repeat " " k) = count_from skip s + k.
Proof.
  revert skip. induction s as [|c r IH]; intros skip Hs; simpl in Hs.
  - assert (skip = 0) as -> by lia. apply count_from_spaces.
  - destruct skip as [|skip].
    + change (count_from 0 (String c r +:+ Repeat " " k))
        with (S (count_from (rune_size (String c (r +:+ Repeat " " k)) - 1)
                   (r +:+ Repeat " " k))).
      change (count_from 0 (String c r))
        with (S (count_from (rune_size (String c r) - 1) r)).
      rewrite rune_size_spaces, IH; [done|].
      pose proof (rune_size_le (String c r)). simpl in *. lia.
    + simpl. apply IH. lia.
Qed.

(** [padString] fills up to the width and never cuts. *)
Lemma RuneCount_padString wid s :
  RuneCountInString (padString wid s) = wid `max` RuneCountInString s.
Proof.
  unfold padString, RuneCountInString.
  rewrite count_from_append_spaces by lia. lia.
Qed.

Lemma trunc_from_prefix n skip s : exists rest, s = trunc_from n skip s +:+ rest.
Proof.
  revert n skip. induction s as [|c r IH]; intros n skip.
  - by exists "".
  - destruct skip as [|skip].
    + destruct n as [|n]; [by exists (String c r)|].
      change (trunc_from (S n) 0 (String c r))
        with (String c (trunc_from n (rune_size (String c r) - 1) r)).
      destruct (IH n (rune_size (String c r) - 1)) as [rest H].
      exists rest. cbn [String.append]. by rewrite <- H.
    + destruct (IH n skip) as [rest H]. exists rest.
      cbn [trunc_from String.append]. by rewrite <- H.
Qed.

Lemma trunc_from_length n skip s :
  skip <= String.length s -> skip <= String.length (trunc_from n skip s).
Proof.
  revert n skip. induction s as [|c r IH]; intros n skip Hs; simpl in Hs.
  - lia.
  - destruct skip as [|skip]; [lia|]. simpl. specialize (IH n skip). lia.
Qed.

Lemma count_from_trunc_from n skip s :
  count_from skip (trunc_from n skip s) = n `min` count_from skip s.
Proof.
  revert n skip. induction s as [|c r IH]; intros n skip.
  - simpl. lia.
  - destruct skip as [|skip]; [|simpl; apply IH].
    destruct n as [|n]; [done|].
    change (trunc_from (S n) 0 (String c r))
      with (String c (trunc_from n (rune_size (String c r) - 1) r)).
    change (count_from 0 (String c r))
      with (S (count_from (rune_size (String c r) - 1) r)).
    set (k := rune_size (String c r) - 1).
    set (t := trunc_from n k r).
    change (count_from 0 (String c t))
      with (S (count_from (rune_size (String c t) - 1) t)).
    assert (rune_size (String c t) = rune_size (String c r)) as ->.
    { destruct (trunc_from_prefix n k r) as [rest H]. fold t in H.
      transitivity (rune_size (String c (t +:+ rest))); [|by rewrite <- H].
      apply rune_size_prefix. rewrite <- H. fold k.
      apply trunc_from_length. unfold k.
      pose proof (rune_size_le (String c r)). simpl in *. lia. }
    fold k. unfold t. rewrite IH. lia.
Qed.

(** [truncateString] keeps the first [prec] runes. *)
Lemma RuneCount_truncateString prec s :
  RuneCountInString (truncateString prec s) = prec `min` RuneCountInString s.
Proof. apply count_from_trunc_from. Qed.

Lemma truncateString_prefix prec s : exists rest, s = truncateString prec s +:+ rest.
Proof. apply trunc_from_prefix. Qed.

(** The header cell [%-17.16s]: at most 16 runes of the text, then spaces
    up to 17 runes. *)
Lemma RuneCount_head_cell s : RuneCountInString (Sprintf_s 17 (Some 16) s) = 17.
Proof.
  unfold Sprintf_s. rewrite RuneCount_padString, RuneCount_truncateString. lia.
Qed.

(** The body cell [%-17s]: 17 runes when the text has no more. *)
Lemma RuneCount_body_cell s :
  RuneCountInString s <= 17 -> RuneCountInString (Sprintf_s 17 None s) = 17.
Proof. intros H. unfold Sprintf_s. rewrite RuneCount_padString. lia. Qed.

Lemma rune_size_ascii c r : is_ascii_byte c = true -> rune_size (String c r) = 1.
Proof.
  intros H. unfold rune_size, lead_size. unfold is_ascii_byte in H.
  apply N.ltb_lt in H. destruct (N.ltb_spec (byte_val c) 194); [done|lia].
Qed.

(** An ASCII string has one rune per byte. *)
Lemma RuneCount_ascii s : isASCII s = true -> RuneCountInString s = String.length s.
Proof.
  unfold RuneCountInString. induction s as [|c r IH]; [done|]. simpl isASCII.
  intros [Hc Hr]%andb_true_iff.
  change (count_from 0 (String c r))
    with (S (count_from (rune_size (String c r) - 1) r)).
  rewrite rune_size_ascii by done. simpl. by rewrite IH.
Qed.

End FmtFacts.

(** ** The table *)

Section GridFacts.
Context {A : Type}.
Implicit Types (l : list A) (rows : list (list A)).

Lemma slot_inj N j c j' c' :
  c < N -> c' < N -> j * N + c = j' * N + c' -> j = j' /\ c = c'.
Proof.
  intros Hc Hc' H.
  assert (j = j') as ->; [|lia].
  rewrite (Nat.div_unique (j * N + c) N j c) by lia.
  rewrite H. symmetry. apply Nat.div_unique with c'; lia.
Qed.

Lemma slot_lt N R j c : c < N -> j < R -> j * N + c < N * R.
Proof. nia. Qed.

(** Two grids of the same size are equal when their slots are. *)
Lemma grid_ext l1 l2 N R :
  length l1 = N * R -> length l2 = N * R ->
  (forall j c, c < N -> j < R -> l1 !! (j * N + c) = l2 !! (j * N + c)) ->
  l1 = l2.
Proof.
  intros H1 H2 H. apply list_eq. intros k.
  destruct (decide (k < N * R)) as [Hk|Hk].
  - assert (0 < N) as HN by nia.
    assert (k = k / N * N + k mod N) as ->.
    { rewrite Nat.mul_comm. apply Nat.div_mod. lia. }
    apply H.
    + apply Nat.mod_upper_bound. lia.
    + apply Nat.Div0.div_lt_upper_bound. lia.
  - rewrite !lookup_ge_None_2; [done|lia|lia].
Qed.

Lemma join_uniform_length rows N :
  Forall (fun r => length r = N) rows -> length (mjoin rows) = N * length rows.
Proof.
  induction 1 as [|r rows Hr _ IH]; simpl; [lia|].
  rewrite length_app, IH, Hr. lia.
Qed.

Lemma join_uniform_lookup rows N j c :
  Forall (fun r => length r = N) rows -> c < N ->
  mjoin rows !! (j * N + c) = rows !! j ≫= (fun r => r !! c).
Proof.
  intros Hrows Hc. revert j. induction Hrows as [|r rows Hr _ IH]; intros j.
  - done.
  - simpl. destruct j as [|j]; simpl.
    + rewrite lookup_app_l by lia. done.
    + rewrite lookup_app_r by lia. rewrite <- IH. f_equal. lia.
Qed.
End GridFacts.

Section PrintFacts.
Import GoString GoStringFacts.
Variable cell : string -> string.

Lemma print_row_append (row : list string) (out : string) :
  print_row cell row +:+ out = foldr (fun c o => cell c +:+ o) (nl +:+ out) row.
Proof.
  unfold print_row. induction row as [|x row IH]; simpl; [done|].
  by rewrite append_assoc, IH.
Qed.

Lemma print_row_fmap (row : list string) :
  print_row cell row = print_row id (cell <$> row).
Proof.
  unfold print_row. induction row as [|x row IH]; [done|].
  rewrite fmap_cons. simpl. by rewrite IH.
Qed.

Lemma print_rows_fmap (rows : list (list string)) :
  print_rows cell rows = print_rows id ((fun r : list string => cell <$> r) <$> rows).
Proof.
  unfold print_rows. induction rows as [|r rows IH]; [done|].
  rewrite fmap_cons. simpl. by rewrite IH, print_row_fmap.
Qed.

(** The printing loop on the rest of a row: a line feed follows the last
    cell of the row only. *)
Lemma print_cells_row N (row rest : list string) (j c : nat) (out : string) :
  c + length row = N -> row <> [] ->
  print_cells cell N rest (S j * N) = Some out ->
  print_cells cell N (row ++ rest) (j * N + c) = Some (print_row cell row +:+ out).
Proof.
  revert c. induction row as [|x row IH]; intros c Hc Hne Hout; [done|].
  cbn [length] in Hc.
  change (print_row cell (x :: row)) with (cell x +:+ print_row cell row).
  rewrite append_assoc.
  cbn [app print_cells]. rewrite decide_False by lia. cbn [mbind option_bind].
  destruct row as [|y row].
  - cbn [length] in Hc. cbn [app].
    replace (S (j * N + c)) with (S j * N) by lia.
    rewrite Hout. cbn [mbind option_bind].
    rewrite decide_True; [done|].
    replace (j * N + c + 1) with (N + j * N) by lia.
    rewrite Nat.Div0.mod_add. apply Nat.Div0.mod_same.
  - replace (S (j * N + c)) with (j * N + S c) by lia.
    rewrite (IH (S c)); [|lia|done|done]. cbn [mbind option_bind].
    rewrite decide_False; [done|].
    replace (j * N + c + 1) with (c + 1 + j * N) by lia.
    cbn [length] in Hc.
    rewrite Nat.Div0.mod_add, Nat.mod_small; lia.
Qed.

(** The printing loop on a grid of full rows prints the rows. *)
Lemma print_cells_rows N (rows : list (list string)) (j : nat) :
  0 < N -> Forall (fun r => length r = N) rows ->
  print_cells cell N (mjoin rows) (j * N) = Some (print_rows cell rows).
Proof.
  intros HN Hrows. revert j. induction Hrows as [|r rows Hr _ IH]; intros j.
  - done.
  - simpl. replace (j * N) with (j * N + 0) by lia.
    apply print_cells_row; [lia| |apply IH].
    intros ->. simpl in Hr. lia.
Qed.
End PrintFacts.

Section FillFacts.
Variable unicode_lower : string -> string.

Lemma in__decide {B} (x : string) (l : list string) (u v : B) :
  (if in_ x l then u else v) = (if decide (x ∈ l) then u else v).
Proof.
  induction l as [|y l IH]; cbn [in_].
  - destruct (decide (x ∈ [])) as [H|_]; [|done]. by apply elem_of_nil in H.
  - destruct (decide (y = x)) as [->|Hne].
    + destruct (decide (x ∈ x :: l)) as [_|H]; [done|]. exfalso. apply H. left.
    + rewrite IH. destruct (decide (x ∈ l)) as [Hin|Hin].
      * destruct (decide (x ∈ y :: l)) as [_|H]; [done|]. exfalso. apply H. by right.
      * destruct (decide (x ∈ y :: l)) as [H|_]; [|done].
        apply elem_of_cons in H as [->|H]; done.
Qed.

Lemma store_Some {B} (l : list B) i x : i < length l -> store l i x = Some (<[i := x]> l).
Proof. intros H. unfold store. by rewrite decide_True. Qed.

(** The inner loop of [output] on a server without error: it rewrites the
    rows of its column that are still to come, and nothing else. *)
Lemma place_ips_spec (allip : list string) (item : Answer) (i N R : nat)
    (rest : list string) (j : nat) (ip : list string) :
  Answer_Error item = None ->
  rest = drop j allip -> i < N -> length ip = N * R -> length allip <= R ->
  exists ip',
    place_ips rest j item i N ip = Some ip' /\
    length ip' = length ip /\
    forall j' c old, c < N -> j' < R -> ip !! (j' * N + c) = Some old ->
      ip' !! (j' * N + c)
      = Some (if decide (c = i /\ j <= j')
              then column_cell unicode_lower allip item j' old else old).
Proof.
  intros Herr. revert j ip.
  induction rest as [|x rest IH]; intros j ip Hrest Hi Hlen Hall.
  - exists ip. split; [done|]. split; [done|].
    intros j' c old Hc Hj' Hold. rewrite Hold. f_equal.
    destruct (decide _) as [[-> Hj]|_]; [|done].
    unfold column_cell. rewrite Herr.
    assert (length allip <= j) as Hge.
    { destruct (decide (length allip <= j)) as [|Hn]; [done|].
      assert (length (drop j allip) = 0) as H0 by by rewrite <- Hrest.
      rewrite length_drop in H0. lia. }
    rewrite lookup_ge_None_2; [done|lia].
  - assert (allip !! j = Some x) as Hx.
    { rewrite <- (Nat.add_0_r j), <- lookup_drop, <- Hrest. done. }
    assert (rest = drop (S j) allip) as Hrest'.
    { rewrite (drop_S _ _ _ Hx) in Hrest. by injection Hrest. }
    assert (j < R) as HjR by (apply lookup_lt_Some in Hx; lia).
    pose proof (slot_lt N R j i Hi HjR) as Hslot.
    cbn [place_ips]. rewrite in__decide.
    destruct (decide (x ∈ Answer_IP item)) as [Hin|Hin].
    + rewrite store_Some by lia. cbn [mbind option_bind].
      destruct (IH (S j) (<[j * N + i := x]> ip) Hrest' Hi) as (ip' & Hrun & Hlen' & Hval).
      { by rewrite length_insert. }
      { done. }
      exists ip'. split; [done|]. split; [by rewrite Hlen', length_insert|].
      intros j' c old Hc Hj' Hold.
      destruct (decide (j' = j /\ c = i)) as [[-> ->]|Hne].
      * rewrite (Hval j i x); [|done|done|by rewrite list_lookup_insert_eq by lia].
        rewrite decide_False by lia. rewrite decide_True by done.
        unfold column_cell. rewrite Herr, Hx. by rewrite decide_True.
      * rewrite (Hval j' c old); [|done|done|].
        -- f_equal. destruct (decide (c = i /\ S j <= j')) as [[-> ?]|Hn1].
           ++ by rewrite decide_True by lia.
           ++ rewrite decide_False; [done|]. intros [-> ?]. apply Hn1.
              split; [done|]. destruct (decide (j' = j)) as [->|]; [|lia].
              by destruct Hne.
        -- rewrite list_lookup_insert_ne; [done|].
           intros Heq. apply slot_inj in Heq as [-> ->]; [|done|done]. by apply Hne.
    + cbn [mbind option_bind].
      destruct (IH (S j) ip Hrest' Hi Hlen Hall) as (ip' & Hrun & Hlen' & Hval).
      exists ip'. split; [done|]. split; [done|].
      intros j' c old Hc Hj' Hold. rewrite (Hval j' c old) by done. f_equal.
      destruct (decide (c = i /\ S j <= j')) as [[-> ?]|Hn1].
      * by rewrite decide_True by lia.
      * destruct (decide (c = i /\ j <= j')) as [[-> ?]|Hn2]; [|done].
        assert (j' = j) as -> by (destruct (decide (j' = j)); [done|]; exfalso; apply Hn1; lia).
        unfold column_cell. rewrite Herr, Hx. by rewrite decide_False.
Qed.

(** The outer loop of [output]: it writes the name and the address of
    every server that is still to come and rewrites that server's
    column. *)
Lemma fill_spec (a : Answers) (allip : list string) (R : nat)
    (items : list Answer) (i : nat) (head ip : list string) :
  items = drop i a ->
  length head = length a * 2 -> length ip = length a * R ->
  length allip <= R -> 1 <= R ->
  exists head' ip',
    fill unicode_lower items i (length a) allip head ip = Some (head', ip') /\
    length head' = length head /\ length ip' = length ip /\
    (forall k, k < length a ->
       head' !! k = if decide (i <= k)
                    then (fun item => Name (Answer_DnsAddr item)) <$> a !! k
                    else head !! k) /\
    (forall k, k < length a ->
       head' !! (length a + k)
       = if decide (i <= k)
         then (fun item => Address (Answer_DnsAddr item)) <$> a !! k
         else head !! (length a + k)) /\
    (forall j c old, c < length a -> j < R -> ip !! (j * length a + c) = Some old ->
       ip' !! (j * length a + c)
       = Some (if decide (i <= c)
               then match a !! c with
                    | Some item => column_cell unicode_lower allip item j old
                    | None => old
                    end
               else old)).
Proof.
  set (N := length a). revert i head ip.
  induction items as [|item items IH]; intros i head ip Hitems Hhead Hip Hall HR.
  - assert (N <= i) as Hge.
    { destruct (decide (N <= i)) as [|Hn]; [done|].
      assert (length (drop i a) = 0) as H0 by by rewrite <- Hitems.
      rewrite length_drop in H0. lia. }
    exists head, ip. split; [done|]. split; [done|]. split; [done|].
    split; [|split].
    + intros k Hk. by rewrite decide_False by lia.
    + intros k Hk. by rewrite decide_False by lia.
    + intros j c old Hc Hj Hold. by rewrite decide_False by lia.
  - assert (a !! i = Some item) as Hitem.
    { rewrite <- (Nat.add_0_r i), <- lookup_drop, <- Hitems. done. }
    assert (items = drop (S i) a) as Hitems'.
    { rewrite (drop_S _ _ _ Hitem) in Hitems. by injection Hitems. }
    assert (i < N) as Hi by (by apply lookup_lt_Some in Hitem).
    cbn [fill].
    rewrite store_Some by lia. cbn [mbind option_bind].
    rewrite store_Some by (rewrite length_insert; lia). cbn [mbind option_bind].
    set (head2 := <[i + N := _]> (<[i := _]> head)).
    assert (exists ip1,
               match Answer_Error item with
               | None => place_ips allip 0 item i N ip
               | Some e => store ip i (errToString unicode_lower (Some e))
               end = Some ip1 /\
               length ip1 = length ip /\
               forall j c old, c < N -> j < R -> ip !! (j * N + c) = Some old ->
                 ip1 !! (j * N + c)
                 = Some (if decide (c = i)
                         then column_cell unicode_lower allip item j old else old))
      as (ip1 & -> & Hlen1 & Hval1).
    { destruct (Answer_Error item) as [e|] eqn:Herr.
      - pose proof (slot_lt N R 0 i Hi HR) as Hslot. simpl in Hslot.
        rewrite store_Some by lia. eexists. split; [done|].
        split; [by rewrite length_insert|].
        intros j c old Hc Hj Hold. unfold column_cell. rewrite Herr.
        destruct (decide (c = i)) as [->|Hne].
        + destruct (decide (j = 0)) as [->|Hj0].
          * simpl. by rewrite list_lookup_insert_eq by lia.
          * rewrite list_lookup_insert_ne; [done|].
            intros Heq. apply (slot_inj N 0 i j i) in Heq as [? _]; [lia|done|done].
        + rewrite list_lookup_insert_ne; [done|].
          intros Heq. apply (slot_inj N 0 i j c) in Heq as [_ ?]; [lia|done|done].
      - destruct (place_ips_spec allip item i N R allip 0 ip Herr)
          as (ip1 & Hrun & Hlen1 & Hval1); [done..|].
        exists ip1. split; [done|]. split; [done|].
        intros j c old Hc Hj Hold. rewrite (Hval1 j c old) by done. f_equal.
        destruct (decide (c = i)) as [->|Hne].
        + by rewrite decide_True by (split; [done|lia]).
        + rewrite decide_False; [done|]. by intros [? _]. }
    cbn [mbind option_bind].
    destruct (IH (S i) head2 ip1) as (head' & ip' & Hrun & Hlh & Hli & Hn & Ha & Hc);
      [done| |lia|done|done|].
    { unfold head2. rewrite !length_insert. done. }
    exists head', ip'. split; [done|].
    split; [by rewrite Hlh; unfold head2; rewrite !length_insert|].
    split; [lia|]. split; [|split].
    + intros k Hk. rewrite (Hn k Hk). unfold head2.
      destruct (decide (k = i)) as [->|Hne].
      * rewrite decide_False by lia. rewrite decide_True by lia.
        rewrite list_lookup_insert_ne by lia.
        rewrite list_lookup_insert_eq by lia. by rewrite Hitem.
      * rewrite !list_lookup_insert_ne by lia.
        destruct (decide (S i <= k)); [by rewrite decide_True by lia|].
        by rewrite decide_False by lia.
    + intros k Hk. rewrite (Ha k Hk). unfold head2.
      destruct (decide (k = i)) as [->|Hne].
      * rewrite decide_False by lia. rewrite decide_True by lia.
        replace (N + i) with (i + N) by lia.
        rewrite list_lookup_insert_eq by (rewrite length_insert; lia).
        by rewrite Hitem.
      * rewrite !list_lookup_insert_ne by lia.
        destruct (decide (S i <= k)); [by rewrite decide_True by lia|].
        by rewrite decide_False by lia.
    + intros j c old Hcl Hj Hold.
      rewrite (Hc j c _ Hcl Hj (Hval1 j c old Hcl Hj Hold)). f_equal.
      destruct (decide (c = i)) as [->|Hne].
      * rewrite decide_False by lia. rewrite decide_True by lia. by rewrite Hitem.
      * destruct (decide (S i <= c)); [by rewrite decide_True by lia|].
        by rewrite decide_False by lia.
Qed.
End FillFacts.

Section OutputFacts.
Import GoString GoStringFacts FmtFacts.
Variable unicode_lower : string -> string.

Local Abbreviation names a := ((fun item => Name (Answer_DnsAddr item)) <$> a).
Local Abbreviation addresses a := ((fun item => Address (Answer_DnsAddr item)) <$> a).

Lemma table_body_length (a : Answers) :
  length (table_body unicode_lower a) = 1 `max` length (allIP a).
Proof. unfold table_body. by rewrite length_fmap, length_seq. Qed.

Lemma table_body_rows (a : Answers) :
  Forall (fun r => length r = length a) (table_body unicode_lower a).
Proof.
  unfold table_body. apply Forall_fmap, Forall_forall. intros j _. simpl.
  by rewrite length_fmap, length_seq.
Qed.

Lemma table_body_lookup (a : Answers) j c :
  c < length a -> j < 1 `max` length (allIP a) ->
  mjoin (table_body unicode_lower a) !! (j * length a + c)
  = Some (table_cell unicode_lower a j c).
Proof.
  intros Hc Hj.
  rewrite (join_uniform_lookup _ (length a)); [|apply table_body_rows|done].
  unfold table_body. rewrite list_lookup_fmap, lookup_seq_lt by done. simpl.
  by rewrite list_lookup_fmap, lookup_seq_lt by done.
Qed.

(** The slices that [output] prints: the names then the addresses, and
    the body row after row. *)
Lemma output_grid_spec (a : Answers) :
  output_grid unicode_lower a
  = Some (names a ++ addresses a, mjoin (table_body unicode_lower a)).
Proof.
  unfold output_grid.
  set (R := if decide (length (allIP a) = 0) then 1 else length (allIP a)).
  assert (R = 1 `max` length (allIP a)) as HR by (unfold R; case_decide; lia).
  destruct (fill_spec unicode_lower a (allIP a) R a 0
              (replicate (length a * 2) "")
              ((fun _ => "-") <$> replicate (length a * R) ""))
    as (head' & ip' & -> & Hlh & Hli & Hn & Ha & Hc).
  { done. }
  { by rewrite length_replicate. }
  { by rewrite length_fmap, length_replicate. }
  { lia. }
  { lia. }
  rewrite length_replicate in Hlh. rewrite length_fmap, length_replicate in Hli.
  f_equal. f_equal.
  - apply list_eq. intros k.
    destruct (decide (k < length a)) as [Hk|Hk].
    + rewrite (Hn k Hk), decide_True by lia.
      rewrite lookup_app_l by (by rewrite length_fmap).
      by rewrite list_lookup_fmap.
    + rewrite lookup_app_r by (rewrite length_fmap; lia). rewrite length_fmap.
      destruct (decide (k < length a * 2)) as [Hk2|Hk2].
      * replace k with (length a + (k - length a)) at 1 by lia.
        rewrite Ha by lia. rewrite decide_True by lia.
        by rewrite list_lookup_fmap.
      * rewrite !lookup_ge_None_2; [done|rewrite length_fmap; lia|lia].
  - apply (grid_ext _ _ (length a) R); [done| |].
    + rewrite (join_uniform_length _ (length a)) by apply table_body_rows.
      by rewrite table_body_length, HR.
    + intros j c Hcl Hj.
      rewrite (Hc j c "-" Hcl Hj).
      * rewrite table_body_lookup by lia. rewrite decide_True by lia.
        unfold table_cell. done.
      * rewrite list_lookup_fmap, lookup_replicate_2; [done|].
        by apply slot_lt.
Qed.

(** With at least one server, [output] prints the table. *)
Lemma output_spec (a : Answers) :
  a <> [] -> output unicode_lower a = Some (table_text unicode_lower a).
Proof.
  intros Hne. assert (0 < length a) as HN by (destruct a; [done|simpl; lia]).
  unfold output. rewrite output_grid_spec. cbn [mbind option_bind].
  replace (names a ++ addresses a) with (mjoin [names a; addresses a])
    by (simpl; by rewrite app_nil_r).
  rewrite (print_cells_rows _ (length a) [names a; addresses a] 0); [|done|].
  2:{ repeat constructor; by rewrite length_fmap. }
  cbn [mbind option_bind].
  rewrite (print_cells_rows _ (length a) (table_body unicode_lower a) 0);
    [|done|apply table_body_rows].
  cbn [mbind option_bind]. unfold table_text. f_equal.
  unfold print_rows at 1. cbn [foldr].
  by rewrite append_nil_r, append_assoc.
Qed.

(** Without servers, [output] prints the empty rule and nothing else. *)
Lemma output_nil : output unicode_lower [] = Some nl.
Proof. unfold output. rewrite output_grid_spec. reflexivity. Qed.
End OutputFacts.

Section TableFacts.
Import GoString GoStringFacts FmtFacts.
Variable unicode_lower : string -> string.

Lemma head_cell_ok_Sprintf (text : string) :
  head_cell_ok text (Sprintf_s 17 (Some 16) text).
Proof.
  destruct (truncateString_prefix 16 text) as [rest Hrest].
  exists (truncateString 16 text), rest,
    (17 - RuneCountInString (truncateString 16 text)).
  split; [done|]. split; [done|]. split.
  - rewrite RuneCount_truncateString. lia.
  - apply RuneCount_head_cell.
Qed.

(** The labels of [errToString] are at most 13 runes wide. *)
Lemma errToString_width (err : option error) :
  RuneCountInString (errToString unicode_lower err) <= 13.
Proof.
  destruct err as [e|]; simpl; [|vm_compute; lia].
  repeat case_match; vm_compute; lia.
Qed.

Lemma column_cell_width (allip : list string) (item : Answer) (j : nat) (old : string) :
  RuneCountInString old <= 17 ->
  (forall ip, ip ∈ Answer_IP item -> RuneCountInString ip <= 17) ->
  RuneCountInString (column_cell unicode_lower allip item j old) <= 17.
Proof.
  intros Hold Hip. unfold column_cell.
  destruct (Answer_Error item) as [e|].
  - case_decide; [|done]. pose proof (errToString_width (Some e)). lia.
  - destruct (allip !! j) as [x|]; [|done]. case_decide; [|done]. by apply Hip.
Qed.

Lemma table_cell_width (a : Answers) (j i : nat) :
  (forall item ip, item ∈ a -> ip ∈ Answer_IP item -> RuneCountInString ip <= 17) ->
  RuneCountInString (table_cell unicode_lower a j i) <= 17.
Proof.
  intros Hip. unfold table_cell.
  destruct (a !! i) as [item|] eqn:Hi; [|vm_compute; lia].
  apply column_cell_width; [vm_compute; lia|].
  intros ip. apply Hip. by eapply list_elem_of_lookup_2.
Qed.

(** In the column of a server with an error: the category in row 0, and
    the dash below. *)
Lemma table_cell_error (a : Answers) (i : nat) (item : Answer) (e : error) (j : nat) :
  a !! i = Some item -> Answer_Error item = Some e ->
  table_cell unicode_lower a j i
  = if decide (j = 0) then errToString unicode_lower (Some e) else "-".
Proof. intros Hi He. unfold table_cell, column_cell. by rewrite Hi, He. Qed.

(** In the column of a server without error: the union IP of the row
    when the server returned it, and the dash otherwise. *)
Lemma table_cell_ip (a : Answers) (i : nat) (item : Answer) (j : nat) (x : string) :
  a !! i = Some item -> Answer_Error item = None -> allIP a !! j = Some x ->
  table_cell unicode_lower a j i = if decide (x ∈ Answer_IP item) then x else "-".
Proof. intros Hi He Hx. unfold table_cell, column_cell. by rewrite Hi, He, Hx. Qed.

Lemma table_cell_no_ip (a : Answers) (i : nat) (item : Answer) (j : nat) :
  a !! i = Some item -> Answer_Error item = None -> allIP a !! j = None ->
  table_cell unicode_lower a j i = "-".
Proof. intros Hi He Hx. unfold table_cell, column_cell. by rewrite Hi, He, Hx. Qed.
End TableFacts.

(** C6.  Let server [i] of the result set be [item].  The slice [ip] that
    [output] prints as the body, [length a] cells to the row, holds in
    column [i]: for an [item] with an error, the error category in row 0
    and the dash in every other row; for an [item] without error, in the
    row of union IP [x], [x] when the IP list of [item] contains it and the
    dash otherwise. *)
Theorem output_cells (unicode_lower : string -> string) (a : Answers)
    (i : nat) (item : Answer) :
  a !! i = Some item ->
  exists head ip,
    output_grid unicode_lower a = Some (head, ip) /\
    ip = mjoin (table_body unicode_lower a) /\
    output unicode_lower a = Some (table_text unicode_lower a) /\
    (forall e, Answer_Error item = Some e ->
       ip !! i = Some (errToString unicode_lower (Some e)) /\
       forall j, 0 < j -> j < 1 `max` length (allIP a) ->
         ip !! (j * length a + i) = Some "-") /\
    (Answer_Error item = None ->
       forall j x, allIP a !! j = Some x ->
         ip !! (j * length a + i)
         = Some (if decide (x ∈ Answer_IP item) then x else "-")).
Proof.
  intros Hi. assert (i < length a) as Hlt by by eapply lookup_lt_Some.
  eexists _, _. split; [apply output_grid_spec|]. split; [done|].
  split; [apply output_spec; by intros ->|]. split.
  - intros e He. split.
    + pose proof (table_body_lookup unicode_lower a 0 i) as H0.
      cbn [Nat.mul Nat.add] in H0. rewrite H0 by lia.
      by rewrite (table_cell_error unicode_lower a i item e).
    + intros j Hj HjR. rewrite table_body_lookup by done.
      rewrite (table_cell_error unicode_lower a i item e) by done.
      by rewrite decide_False by lia.
  - intros He j x Hx. rewrite table_body_lookup.
    + by rewrite (table_cell_ip unicode_lower a i item j x).
    + done.
    + apply lookup_lt_Some in Hx. lia.
Qed.

(** ** Flat mode *)

Lemma allIP_empty_iff (a : Answers) :
  allIP a = [] <-> forall item, item ∈ a -> Answer_IP item = [].
Proof.
  split.
  - intros H item Hitem. destruct (Answer_IP item) as [|ip ips] eqn:Hips; [done|].
    assert (ip ∈ allIP a) as Hin.
    { apply elem_of_allIP. exists item. split; [done|]. rewrite Hips. left. }
    rewrite H in Hin. by apply elem_of_nil in Hin.
  - intros H. destruct (allIP a) as [|ip ips] eqn:Hall; [done|].
    assert (ip ∈ allIP a) as Hin by (rewrite Hall; left).
    apply elem_of_allIP in Hin as (item & Hitem & Hip).
    rewrite (H item Hitem) in Hip. by apply elem_of_nil in Hip.
Qed.

(** [outputNormal] prints one line for each union IP. *)
Lemma outputNormal_lines (a : Answers) :
  outputNormal a = print_rows id ((fun ip => [ip]) <$> allIP a).
Proof.
  unfold outputNormal, print_rows, print_row.
  induction (allIP a) as [|ip ips IH]; [done|].
  rewrite fmap_cons. cbn [foldr id]. rewrite IH.
  by rewrite GoStringFacts.append_assoc.
Qed.

(** C10.  The union IP set is empty exactly when every result has an empty
    IP list, whether through an error or not.  Then [outputNormal] prints
    nothing: no line, no placeholder and no error, while [output], given
    at least one server, prints a table with one body row. *)
Theorem outputNormal_empty (a : Answers) :
  (forall item, item ∈ a -> Answer_IP item = []) ->
  allIP a = [] /\
  outputNormal a = "" /\
  (a <> [] -> forall unicode_lower,
     output unicode_lower a = Some (table_text unicode_lower a) /\
     length (table_body unicode_lower a) = 1).
Proof.
  intros H. apply allIP_empty_iff in H. split; [done|]. split.
  - unfold outputNormal. by rewrite H.
  - intros Hne unicode_lower. split; [by apply output_spec|].
    by rewrite table_body_length, H.
Qed.

(** ** Structured mode *)

Lemma strings_of_json_of_strings (x : list string) :
  strings_of_json (json_of_strings x) = Some x.
Proof.
  destruct x as [|s x]; [done|]. unfold json_of_strings, strings_of_json.
  by apply mapM_fmap_Some.
Qed.

Lemma AnswerJson_of_json_of_AnswerJson (r : AnswerJson) :
  AnswerJson_of_json (json_of_AnswerJson r) = Some r.
Proof.
  destruct r as [[name address] ip err].
  unfold AnswerJson_of_json, json_of_AnswerJson.
  change (json_field "Name" _) with (JString name).
  change (json_field "Address" _) with (JString address).
  change (json_field "IP" _) with (json_of_strings ip).
  change (json_field "Error" _) with (JString err).
  cbn [string_of_json mbind option_bind Name Address AnswerJson_DnsAddr
       AnswerJson_IP AnswerJson_Error].
  by rewrite strings_of_json_of_strings.
Qed.

Lemma AnswersJson_of_json_of_AnswersJson (aj : AnswersJson) :
  AnswersJson_of_json (json_of_AnswersJson aj) = Some aj.
Proof.
  unfold AnswersJson_of_json, json_of_AnswersJson.
  apply mapM_fmap_Some. apply AnswerJson_of_json_of_AnswerJson.
Qed.

(** ** Configuration lookup *)

Section ConfigFacts.
Variable file_at : string -> file_state.
Variable json_Unmarshal : string -> DnsAddrs.

Local Abbreviation read := (readConfig file_at json_Unmarshal).
Local Abbreviation try := (try_paths file_at json_Unmarshal).

Lemma readConfig_missing (file : string) :
  file_at file = NotExist ->
  read file = Some ([], Some (readConfigError
    {| Path := file; Errmsg := "file does not exists"; Exit := false |})).
Proof. intros H. unfold readConfig. by rewrite H. Qed.

(** A fault of the file gives an error that stops the lookup, and no
    server list. *)
Lemma readConfig_fault (file msg : string) :
  config_fault json_Unmarshal (file_at file) = Some msg ->
  read file = Some ([], Some (readConfigError
    {| Path := file; Errmsg := msg; Exit := true |})).
Proof.
  unfold readConfig, config_fault.
  destruct (file_at file) as [| | |err|b]; try done.
  - by intros [= <-].
  - by intros [= <-].
  - destruct (decide _) as [H0|]; [|done]. intros [= <-].
    by apply nil_length_inv in H0 as ->.
Qed.

(** The lookup passes over the paths where no file exists. *)
Lemma try_paths_missing (pre rest : list string) :
  (forall q, q ∈ pre -> file_at q = NotExist) ->
  try [] (pre ++ rest) = try [] rest.
Proof.
  induction pre as [|q pre IH]; intros H; [done|].
  cbn [app try_paths]. rewrite readConfig_missing by (apply H; left).
  cbn [mbind option_bind Exit]. apply IH. intros q' Hq'. apply H. by right.
Qed.

Lemma try_paths_all_missing (paths : list string) :
  (forall q, q ∈ paths -> file_at q = NotExist) ->
  try [] paths = Some ([], "", Some (errorString "Configuration file not found")).
Proof.
  intros H. rewrite <- (app_nil_r paths). by rewrite try_paths_missing.
Qed.

Lemma try_paths_fault (p msg : string) (post : list string) :
  config_fault json_Unmarshal (file_at p) = Some msg ->
  try [] (p :: post)
  = Some ([], p, Some (readConfigError {| Path := p; Errmsg := msg; Exit := true |})).
Proof. intros H. cbn [try_paths]. by rewrite (readConfig_fault p msg). Qed.

(** A failure of [os.Stat] other than a missing file makes [readConfig]
    panic, and the lookup with it. *)
Lemma try_paths_stat_panic (p : string) (post : list string) :
  file_at p = StatFails -> try [] (p :: post) = None.
Proof. intros H. cbn [try_paths]. unfold readConfig. by rewrite H. Qed.
End ConfigFacts.

(** The faults that the lookup reports.  Let [p] be a default search path
    before which no file exists.  When no file exists at [p] either, the
    lookup goes on with the paths after [p].  When the file at [p] is a
    directory, cannot be read, or yields an empty server list, the lookup
    returns at once with the error of that file, whatever the later paths
    hold.  When no file exists at any default path, the lookup fails with
    [Configuration file not found], and [main] prints that message to
    standard error and exits with status 1 without an exchange with a name
    server; it makes no exchange either when it reports the error of a
    file. *)
Theorem getDefaultConfig_lookup (file_at : string -> file_state)
    (json_Unmarshal : string -> DnsAddrs) (Getenv : string -> string)
    (Join : list string -> string) (pre : list string) (p : string) (post : list string) :
  default_paths Getenv Join = pre ++ p :: post ->
  (forall q, q ∈ pre -> file_at q = NotExist) ->
  (file_at p = NotExist ->
     getDefaultConfig file_at json_Unmarshal Getenv Join
     = try_paths file_at json_Unmarshal [] post /\
     (post = [] ->
      getDefaultConfig file_at json_Unmarshal Getenv Join
      = Some ([], "", Some (errorString "Configuration file not found")))) /\
  (forall msg, config_fault json_Unmarshal (file_at p) = Some msg ->
     getDefaultConfig file_at json_Unmarshal Getenv Join
     = Some ([], p, Some (readConfigError {| Path := p; Errmsg := msg; Exit := true |}))) /\
  (forall unicode_lower Fqdn Exchange json_text usage_text sample_text schedule fl w e,
     help fl = false -> sample fl = false -> showver fl = false ->
     format fl ∈ [""; "std"; "json"; "ip"] -> configfile fl = "" ->
     snd <$> getDefaultConfig file_at json_Unmarshal Getenv Join = Some (Some e) ->
     main unicode_lower Fqdn Exchange json_text file_at json_Unmarshal Getenv Join
       usage_text sample_text schedule fl w
     = Some {| stdout := ""; stderr := Error e +:+ GoString.nl;
               status := 1; exchanges := w |}).
Proof.
  intros Hpaths Hpre. split; [|split].
  - intros Hp. unfold getDefaultConfig. rewrite Hpaths.
    rewrite try_paths_missing by done. cbn [try_paths].
    rewrite readConfig_missing by done. cbn [mbind option_bind Exit].
    split; [done|]. by intros ->.
  - intros msg Hmsg. unfold getDefaultConfig. rewrite Hpaths.
    rewrite try_paths_missing by done. by apply try_paths_fault.
  - intros unicode_lower Fqdn Exchange json_text usage_text sample_text schedule fl w e
      Hhelp Hsample Hver Hformat Hfile Herr.
    unfold main. rewrite Hhelp, Hsample, Hver, Hfile.
    set (fmt := if decide (format fl = "") then "std" else format fl).
    assert (~ (fmt <> "std" /\ fmt <> "json" /\ fmt <> "ip")) as Hfmt.
    { unfold fmt. intros (H1 & H2 & H3).
      repeat (apply elem_of_cons in Hformat as [Hformat|Hformat]);
        [| | | |by apply elem_of_nil in Hformat]; rewrite Hformat in *;
        by repeat case_decide. }
    rewrite (decide_False _ _ Hfmt).
    rewrite decide_True by done.
    destruct (getDefaultConfig _ _ _ _) as [[[conf confpath] err]|]; [|done].
    cbn in Herr. injection Herr as ->. done.
Qed.

(** * The properties on the sample run *)

Lemma sample_schedule : schedule_of Sample.conf Sample.sched.
Proof. unfold schedule_of, Sample.sched, Sample.conf, launched. simpl. apply perm_swap. Qed.

Lemma query_aligned_witness :
  exists answers w',
    query Sample.Fqdn Sample.Exchange Sample.conf "example.com" "udp" Sample.sched []
    = Some (answers, w') /\
    length answers = length Sample.conf /\
    (forall i d, Sample.conf !! i = Some d ->
       exists ans, answers !! i = Some ans /\ Answer_DnsAddr ans = d).
Proof.
  apply (query_aligned Sample.Fqdn Sample.Exchange Sample.conf "example.com" "udp"
           Sample.sched []).
  apply sample_schedule.
Defined.

Lemma allIP_sorted_union_witness :
  key_order Sample.two_ips ["93.184.216.34"; "10.0.0.1"] /\
  allIP_from ["93.184.216.34"; "10.0.0.1"] = ["10.0.0.1"; "93.184.216.34"] /\
  NoDup (allIP_from ["93.184.216.34"; "10.0.0.1"]).
Proof.
  assert (key_order Sample.two_ips ["93.184.216.34"; "10.0.0.1"]) as Hk.
  { unfold key_order. vm_compute. first [reflexivity | apply perm_swap]. }
  split; [exact Hk|]. split; [vm_compute; reflexivity|].
  exact (proj1 (proj2 (allIP_sorted_union Sample.two_ips
                         ["93.184.216.34"; "10.0.0.1"] Hk))).
Defined.

Lemma query_no_result_is_error_witness :
  exists answers w',
    query Sample.Fqdn Sample.Exchange Sample.conf "example.com" "udp" Sample.sched []
    = Some (answers, w') /\
    (forall ans, ans ∈ answers ->
       (Answer_IP ans <> [] /\ Answer_Error ans = None) \/
       (Answer_IP ans = [] /\ is_Some (Answer_Error ans))).
Proof.
  destruct (query_no_result_is_error Sample.Fqdn Sample.Exchange Sample.conf
              "example.com" "udp" Sample.sched [] sample_schedule)
    as (answers & w' & Hq & _ & Hout).
  by exists answers, w'.
Defined.

Lemma output_cells_witness :
  exists head ip,
    output_grid GoString.lower_ascii Sample.answers = Some (head, ip) /\
    ip !! 0 = Some "Timeout".
Proof.
  destruct (output_cells GoString.lower_ascii Sample.answers 0
              {| Answer_DnsAddr := Sample.AliDNS; Answer_IP := [];
                 Answer_Error := Some (errorString "read udp 223.5.5.5:53: i/o timeout") |}
              eq_refl)
    as (head & ip & Hgrid & _ & _ & Herr & _).
  exists head, ip. split; [exact Hgrid|].
  exact (proj1 (Herr _ eq_refl)).
Defined.

Lemma sample_paths :
  default_paths Sample.Getenv Sample.Join
  = ["/home/u/.config/ipre.conf"] ++ "/home/u/.ipre" :: ["/etc/ipre.conf"].
Proof. reflexivity. Qed.

Lemma getDefaultConfig_lookup_witness :
  getDefaultConfig Sample.file_at Sample.json_Unmarshal Sample.Getenv Sample.Join
  = Some ([], "/home/u/.ipre",
          Some (readConfigError
            {| Path := "/home/u/.ipre";
               Errmsg := "file format is not correct, use '-s' to see a sample configuration";
               Exit := true |})).
Proof.
  refine (proj1 (proj2 (getDefaultConfig_lookup Sample.file_at Sample.json_Unmarshal
            Sample.Getenv Sample.Join ["/home/u/.config/ipre.conf"] "/home/u/.ipre"
            ["/etc/ipre.conf"] sample_paths _)) _ _).
  - intros q Hq. apply list_elem_of_singleton in Hq as ->. reflexivity.
  - reflexivity.
Defined.

Lemma outputNormal_empty_witness :
  allIP Sample.failed = [] /\ outputNormal Sample.failed = "".
Proof.
  assert (forall item, item ∈ Sample.failed -> Answer_IP item = []) as H.
  { unfold Sample.failed. intros item Hitem.
    repeat (apply elem_of_cons in Hitem as [->|Hitem]); [done|done|].
    by apply elem_of_nil in Hitem. }
  destruct (outputNormal_empty Sample.failed H) as (H1 & H2 & _). by split.
Defined.

(** The sample run, computed: the slice that [query] returns with the two
    exchanges made, and the three renderings of it. *)
Example query_sample :
  query Sample.Fqdn Sample.Exchange Sample.conf "example.com" "udp" Sample.sched []
  = Some (Sample.answers,
          [ {| call_net := "udp"; call_timeout := Some 3%N;
               call_question := "example.com."; call_server := "8.8.8.8:53" |};
            {| call_net := "udp"; call_timeout := Some 3%N;
               call_question := "example.com."; call_server := "223.5.5.5:53" |} ]).
Proof. vm_compute. reflexivity. Qed.

Example output_sample :
  output GoString.lower_ascii Sample.answers
  = Some ("AliDNS           Google           " +:+ GoString.nl
          +:+ "223.5.5.5        8.8.8.8          " +:+ GoString.nl
          +:+ "----------------------------------" +:+ GoString.nl
          +:+ "Timeout          93.184.216.34    " +:+ GoString.nl).
Proof. vm_compute. reflexivity. Qed.

Example output_failed_sample :
  output GoString.lower_ascii Sample.failed
  = Some ("AliDNS           Google           " +:+ GoString.nl
          +:+ "223.5.5.5        8.8.8.8          " +:+ GoString.nl
          +:+ "----------------------------------" +:+ GoString.nl
          +:+ "Timeout          No result        " +:+ GoString.nl).
Proof. vm_compute. reflexivity. Qed.

Example outputNormal_sample :
  outputNormal Sample.two_ips = "10.0.0.1" +:+ GoString.nl +:+ "93.184.216.34" +:+ GoString.nl.
Proof. vm_compute. reflexivity. Qed.

(** * Further properties *)

(** ** [in] *)

(** X1.  [in] answers whether the string occurs in the slice. *)
Theorem in_true_iff (ip : string) (ips : list string) :
  in_ ip ips = true <-> ip ∈ ips.
Proof.
  pose proof (in__decide ip ips true false) as H.
  destruct (in_ ip ips), (decide (ip ∈ ips)) as [Hin|Hin]; split; done.
Qed.

(** ** [ARecords] *)

Lemma a_records_addresses (answer : list RR) :
  a_records answer = IP_String <$> a_addresses answer.
Proof.
  unfold a_addresses. induction answer as [|[a|] answer IH]; simpl; [done| |done].
  by rewrite IH.
Qed.

(** X2.  With [tcp] or [udp], [ARecords] makes one exchange, with the
    server as [nameserver:port], the name made fully qualified and the
    first timeout given.  When the exchange succeeds it returns the text of
    every A record of the answer, in the order of the answer and without
    the records of other types, and no error; when the exchange fails it
    returns that error and no string. *)
Theorem ARecords_exchange (Fqdn : string -> string)
    (Exchange : World -> Exchange_call -> list RR + error)
    (domain nameserver : string) (port : N) (net : string) (timeout : list N) (w : World) :
  net = "tcp" \/ net = "udp" ->
  let call := {| call_net := net; call_timeout := head timeout;
                 call_question := Fqdn domain;
                 call_server := nameserver +:+ ":" +:+ pretty port |} in
  ARecords Fqdn Exchange domain nameserver port net timeout w
  = (match Exchange w call with
     | inl answer => (IP_String <$> a_addresses answer, None)
     | inr err => ([], Some err)
     end, w ++ [call]).
Proof.
  intros Hnet call. unfold ARecords.
  rewrite decide_False by (intros [? ?]; destruct Hnet; done).
  fold call. destruct (Exchange w call) as [answer|err]; [|done].
  by rewrite a_records_addresses.
Qed.

Lemma pretty_octet (b : Byte.byte) :
  GoString.isASCII (pretty (Byte.to_N b)) = true /\
  1 <= String.length (pretty (Byte.to_N b)) <= 3.
Proof. destruct b; vm_compute; (split; [reflexivity|lia]). Qed.

(** The text of an IPv4 address is ASCII and 7 to 15 bytes long. *)
Lemma IP_String_width (a : IPv4) :
  GoString.isASCII (IP_String a) = true /\ 7 <= String.length (IP_String a) <= 15.
Proof.
  unfold IP_String.
  destruct (pretty_octet (octet1 a)) as [A1 L1], (pretty_octet (octet2 a)) as [A2 L2],
    (pretty_octet (octet3 a)) as [A3 L3], (pretty_octet (octet4 a)) as [A4 L4].
  rewrite !GoStringFacts.isASCII_append, !GoStringFacts.length_append, A1, A2, A3, A4.
  split; [done|]. simpl String.length. lia.
Qed.

Lemma a_records_width (answer : list RR) (ip : string) :
  ip ∈ a_records answer ->
  GoString.isASCII ip = true /\ 7 <= String.length ip <= 15.
Proof.
  rewrite a_records_addresses. intros (a & -> & _)%list_elem_of_fmap.
  apply IP_String_width.
Qed.

Lemma ARecords_width (Fqdn : string -> string)
    (Exchange : World -> Exchange_call -> list RR + error)
    (domain nameserver : string) (port : N) (net : string) (timeout : list N)
    (w : World) (ip : string) :
  ip ∈ (ARecords Fqdn Exchange domain nameserver port net timeout w).1.1 ->
  GoString.isASCII ip = true /\ 7 <= String.length ip <= 15.
Proof.
  unfold ARecords. destruct (decide _); simpl.
  - by intros ?%elem_of_nil.
  - destruct (Exchange _ _); simpl; [apply a_records_width|by intros ?%elem_of_nil].
Qed.

(** X3.  Every string that [ARecords] returns is the dotted decimal text
    of an IPv4 address: ASCII, 7 to 15 bytes long, hence 7 to 15 runes wide
    when printed. *)
Theorem ARecords_ip_text (Fqdn : string -> string)
    (Exchange : World -> Exchange_call -> list RR + error)
    (domain nameserver : string) (port : N) (net : string) (timeout : list N)
    (w : World) (ip : string) :
  ip ∈ (ARecords Fqdn Exchange domain nameserver port net timeout w).1.1 ->
  GoString.isASCII ip = true /\
  7 <= String.length ip <= 15 /\
  GoString.RuneCountInString ip = String.length ip.
Proof.
  intros Hip. destruct (ARecords_width _ _ _ _ _ _ _ _ _ Hip) as [Ha Hl].
  split; [done|]. split; [done|]. by apply FmtFacts.RuneCount_ascii.
Qed.

(** ** [query] and [output] together *)

(** The shape of the table follows from the widths of the IP strings. *)
Lemma table_shape_of_widths (unicode_lower : string -> string) (a : Answers) :
  a <> [] ->
  (forall item ip, item ∈ a -> ip ∈ Answer_IP item ->
     GoString.RuneCountInString ip <= 17) ->
  table_shape unicode_lower a.
Proof.
  intros Hne Hip.
  exists (GoString.Sprintf_s 17 (Some 16) <$> ((fun item => Name (Answer_DnsAddr item)) <$> a)),
    (GoString.Sprintf_s 17 (Some 16) <$> ((fun item => Address (Answer_DnsAddr item)) <$> a)),
    ((fun r : list string => GoString.Sprintf_s 17 None <$> r) <$> table_body unicode_lower a).
  split.
  { rewrite output_spec by done. unfold table_text.
    by rewrite <- !print_row_fmap, <- print_rows_fmap. }
  split.
  { rewrite <- list_fmap_compose. apply Forall2_fmap_r, Forall_Forall2_diag, Forall_forall.
    intros item _. apply head_cell_ok_Sprintf. }
  split.
  { rewrite <- list_fmap_compose. apply Forall2_fmap_r, Forall_Forall2_diag, Forall_forall.
    intros item _. apply head_cell_ok_Sprintf. }
  split; [apply GoStringFacts.length_Repeat|].
  split; [by rewrite length_fmap, table_body_length|].
  apply Forall_fmap, Forall_forall. intros row Hrow. simpl.
  unfold table_body in Hrow. apply list_elem_of_fmap in Hrow as (j & -> & _).
  split; [by rewrite !length_fmap, length_seq|].
  apply Forall_fmap, Forall_fmap, Forall_forall. intros i _. simpl.
  apply FmtFacts.RuneCount_body_cell. by apply table_cell_width.
Qed.

Section QueryOutput.
Variable unicode_lower : string -> string.
Variable Fqdn : string -> string.
Variable Exchange : World -> Exchange_call -> list RR + error.
Variables domain net : string.

Lemma goroutine_answer_ip_source (d : DnsAddr) (w : World) (ip : string) :
  ip ∈ Answer_IP (goroutine_answer Fqdn Exchange domain net d w).1 ->
  ip ∈ (ARecords Fqdn Exchange domain (Address d) 53 net [3%N] w).1.1.
Proof.
  unfold goroutine_answer.
  destruct (ARecords _ _ _ _ _ _ _ _) as [[ips [e|]] w']; simpl.
  - by intros ?%elem_of_nil.
  - destruct (decide _); simpl; [by intros ?%elem_of_nil|done].
Qed.

Lemma goroutine_answer_width (d : DnsAddr) (w : World) (ip : string) :
  ip ∈ Answer_IP (goroutine_answer Fqdn Exchange domain net d w).1 ->
  GoString.RuneCountInString ip <= 17.
Proof.
  intros Hip%goroutine_answer_ip_source.
  destruct (ARecords_width _ _ _ _ _ _ _ _ _ Hip) as [Ha Hl].
  rewrite FmtFacts.RuneCount_ascii by done. lia.
Qed.

(** Every element of the slice of [query] is the answer built by a
    goroutine. *)
Lemma query_elements (dns : DnsAddrs) (sched : list (nat * DnsAddr)) (w : World)
    (answers : Answers) (w' : World) (item : Answer) :
  schedule_of dns sched ->
  query Fqdn Exchange dns domain net sched w = Some (answers, w') ->
  item ∈ answers ->
  exists d w0, d ∈ dns /\ item = (goroutine_answer Fqdn Exchange domain net d w0).1.
Proof.
  intros Hs Hq Hitem.
  destruct (query_spec Fqdn Exchange domain net dns sched w Hs)
    as (answers0 & w0' & Hq0 & Hlen & Hslot & _).
  rewrite Hq in Hq0. injection Hq0 as <- <-.
  apply list_elem_of_lookup in Hitem as [i Hi].
  assert (i < length dns) as Hlt by (rewrite <- Hlen; by eapply lookup_lt_Some).
  apply lookup_lt_is_Some in Hlt as [d Hd].
  destruct (Hslot i d Hd) as [w0 H0]. rewrite Hi in H0. injection H0 as ->.
  exists d, w0. split; [by eapply list_elem_of_lookup_2|done].
Qed.
End QueryOutput.

(** X4.  For a server list that is not empty, whatever the exchanges
    return and in whatever order the goroutines run, [output] prints for
    the slice of [query] a table of the shape [table_shape]: two header
    rows, the rule, and [max 1 (length (allIP answers))] body rows, every
    row of [length answers] cells that are each 17 runes wide. *)
Theorem query_output_shape (unicode_lower : string -> string) (Fqdn : string -> string)
    (Exchange : World -> Exchange_call -> list RR + error)
    (dns : DnsAddrs) (domain net : string) (sched : list (nat * DnsAddr)) (w : World) :
  dns <> [] -> schedule_of dns sched ->
  exists answers w',
    query Fqdn Exchange dns domain net sched w = Some (answers, w') /\
    table_shape unicode_lower answers.
Proof.
  intros Hne Hs.
  destruct (query_spec Fqdn Exchange domain net dns sched w Hs)
    as (answers & w' & Hq & Hlen & _).
  exists answers, w'. split; [done|]. apply table_shape_of_widths.
  - intros ->. destruct dns; [done|]. discriminate Hlen.
  - intros item ip Hitem Hip.
    destruct (query_elements Fqdn Exchange domain net dns sched w answers w' item Hs Hq Hitem)
      as (d & w0 & _ & ->).
    by eapply goroutine_answer_width.
Qed.



(** X5.  [output] never panics: no store is out of range and no division
    is by zero.  With at least one result it prints the table, and on the
    empty slice only the line of the empty rule. *)
Theorem output_total (unicode_lower : string -> string) (a : Answers) :
  output unicode_lower a
  = Some (match a with
          | [] => GoString.nl
          | _ :: _ => table_text unicode_lower a
          end).
Proof. destruct a as [|item a]; [apply output_nil|by apply output_spec]. Qed.

(** ** [query]: schedules and exchanges *)

Section QuerySchedules.
Variable Fqdn : string -> string.
Variable Exchange : World -> Exchange_call -> list RR + error.
Variables domain net : string.

Lemma goroutine_answer_history (d : DnsAddr) (w1 w2 : World) :
  (forall w w' call, Exchange w call = Exchange w' call) ->
  (goroutine_answer Fqdn Exchange domain net d w1).1
  = (goroutine_answer Fqdn Exchange domain net d w2).1.
Proof.
  intros H. unfold goroutine_answer, ARecords.
  destruct (decide _); [done|]. rewrite (H w1 w2).
  by destruct (Exchange w2 _).
Qed.

Lemma goroutine_answer_call (d : DnsAddr) (w : World) :
  net = "tcp" \/ net = "udp" ->
  (goroutine_answer Fqdn Exchange domain net d w).2
  = w ++ [query_call Fqdn domain net d].
Proof.
  intros Hnet. rewrite goroutine_answer_world. unfold ARecords.
  rewrite decide_False by (intros [? ?]; destruct Hnet; done).
  change (pretty 53%N) with "53".
  replace (Address d +:+ ":" +:+ "53") with (Address d +:+ ":53")
    by (induction (Address d); simpl; congruence).
  by destruct (Exchange _ _).
Qed.

Lemma run_goroutines_calls (sched : list (nat * DnsAddr)) (answers answers' : Answers)
    (w w' : World) :
  net = "tcp" \/ net = "udp" ->
  run_goroutines Fqdn Exchange domain net sched answers w = Some (answers', w') ->
  w' = w ++ (query_call Fqdn domain net <$> sched.*2).
Proof.
  intros Hnet. revert answers w.
  induction sched as [|[n d] rest IH]; intros answers w Hrun; simpl in Hrun.
  - injection Hrun as <- <-. by rewrite app_nil_r.
  - unfold goroutine in Hrun.
    pose proof (goroutine_answer_call d w Hnet) as Hw.
    destruct (goroutine_answer Fqdn Exchange domain net d w) as [ans w1].
    simpl in Hw, Hrun.
    destruct (store answers n ans) as [answers1|]; [|done]. simpl in Hrun.
    rewrite (IH _ _ Hrun), Hw, <- app_assoc. done.
Qed.
End QuerySchedules.

Lemma launched_snd (dns : DnsAddrs) : (launched dns).*2 = dns.
Proof.
  unfold launched. apply list_eq. intros i.
  rewrite list_lookup_fmap, list_lookup_imap. by destruct (dns !! i).
Qed.

(** X6.  When what an exchange returns does not depend on the exchanges
    made before it, the slice of [query] does not depend on the order in
    which the goroutines run: element [i] is the answer built for server
    [i]. *)
Theorem query_schedule_independent (Fqdn : string -> string)
    (Exchange : World -> Exchange_call -> list RR + error)
    (dns : DnsAddrs) (domain net : string) (sched : list (nat * DnsAddr)) (w : World) :
  (forall w1 w2 call, Exchange w1 call = Exchange w2 call) ->
  schedule_of dns sched ->
  exists w',
    query Fqdn Exchange dns domain net sched w
    = Some ((fun d => (goroutine_answer Fqdn Exchange domain net d []).1) <$> dns, w').
Proof.
  intros Hex Hs.
  destruct (query_spec Fqdn Exchange domain net dns sched w Hs)
    as (answers & w' & Hq & Hlen & Hslot & _).
  exists w'. rewrite Hq. f_equal. f_equal. apply list_eq. intros i.
  rewrite list_lookup_fmap. destruct (dns !! i) as [d|] eqn:Hd; simpl.
  - destruct (Hslot i d Hd) as [w0 ->]. f_equal.
    by apply goroutine_answer_history.
  - apply lookup_ge_None. rewrite Hlen. by apply lookup_ge_None.
Qed.

(** X7.  With [tcp] or [udp], [query] makes its exchanges in the order in
    which the goroutines run, one for each of them: on port 53 of the
    server's address, with a timeout of 3 seconds, for the fully qualified
    domain.  So every configured server is asked exactly once. *)
Theorem query_exchanges (Fqdn : string -> string)
    (Exchange : World -> Exchange_call -> list RR + error)
    (dns : DnsAddrs) (domain net : string) (sched : list (nat * DnsAddr)) (w : World) :
  net = "tcp" \/ net = "udp" ->
  schedule_of dns sched ->
  exists answers,
    query Fqdn Exchange dns domain net sched w
    = Some (answers, w ++ (query_call Fqdn domain net <$> sched.*2)) /\
    query_call Fqdn domain net <$> sched.*2 ≡ₚ query_call Fqdn domain net <$> dns.
Proof.
  intros Hnet Hs.
  destruct (query_spec Fqdn Exchange domain net dns sched w Hs)
    as (answers & w' & Hq & _).
  exists answers. split.
  - rewrite Hq. f_equal. f_equal.
    unfold query in Hq. by eapply run_goroutines_calls.
  - unfold schedule_of in Hs. rewrite Hs. by rewrite launched_snd.
Qed.

(** ** Configuration *)

Section ConfigOutcomes.
Variable file_at : string -> file_state.
Variable json_Unmarshal : string -> DnsAddrs.

(** What [readConfig] returns, by the state of the file. *)
Lemma readConfig_cases (file : string) :
  match readConfig file_at json_Unmarshal file with
  | None => file_at file = StatFails
  | Some (conf, None) =>
      conf <> [] /\ exists b, file_at file = Contents b /\ conf = json_Unmarshal b
  | Some (conf, Some e) =>
      conf = [] /\
      exists msg exit,
        e = readConfigError {| Path := file; Errmsg := msg; Exit := exit |} /\
        (exit = false -> file_at file = NotExist) /\
        (exit = true -> config_fault json_Unmarshal (file_at file) = Some msg)
  end.
Proof.
  unfold readConfig, config_fault.
  destruct (file_at file) as [| | |err|b] eqn:Hst; try done.
  - split; [done|]. eexists _, _. split; [done|]. by split.
  - split; [done|]. eexists _, _. split; [done|]. by split.
  - split; [done|]. eexists _, _. split; [done|]. by split.
  - destruct (decide _) as [H0|H0].
    + split; [by apply nil_length_inv|]. eexists _, _. split; [done|]. by split.
    + split; [by intros H; rewrite H in H0|]. by exists b.
Qed.

(** What the lookup returns over [paths], and the file that decided. *)
Lemma try_paths_result (paths : list string) (conf : DnsAddrs) (path : string)
    (err : option error) :
  try_paths file_at json_Unmarshal [] paths = Some (conf, path, err) ->
  match err with
  | None =>
      conf <> [] /\
      exists pre post b,
        paths = pre ++ path :: post /\ (forall q, q ∈ pre -> file_at q = NotExist) /\
        file_at path = Contents b /\ conf = json_Unmarshal b
  | Some e =>
      conf = [] /\
      ((path = "" /\ e = errorString "Configuration file not found" /\
        forall q, q ∈ paths -> file_at q = NotExist) \/
       (exists pre post msg,
          paths = pre ++ path :: post /\ (forall q, q ∈ pre -> file_at q = NotExist) /\
          config_fault json_Unmarshal (file_at path) = Some msg /\
          e = readConfigError {| Path := path; Errmsg := msg; Exit := true |}))
  end.
Proof.
  induction paths as [|item rest IH]; cbn [try_paths].
  - intros [= <- <- <-]. split; [done|]. left. split; [done|]. split; [done|].
    by intros q ?%elem_of_nil.
  - pose proof (readConfig_cases item) as Hcase.
    destruct (readConfig file_at json_Unmarshal item) as [[conf1 [e1|]]|];
      cbn [mbind option_bind]; [| |done].
    + destruct Hcase as (-> & msg & exit & -> & Hmiss & Hfault).
      destruct exit; cbn [Exit].
      * intros [= <- <- <-]. split; [done|]. right.
        exists [], rest, msg. split; [done|]. split; [by intros q ?%elem_of_nil|].
        split; [by apply Hfault|done].
      * intros Hrest. specialize (IH Hrest).
        assert (file_at item = NotExist) as Hitem by by apply Hmiss.
        destruct err as [e|].
        -- destruct IH as (-> & [(-> & -> & Hall)|(pre & post & msg' & -> & Hpre & Hf & ->)]).
           ++ split; [done|]. left. split; [done|]. split; [done|].
              intros q [->|Hq]%elem_of_cons; [done|by apply Hall].
           ++ split; [done|]. right. exists (item :: pre), post, msg'.
              split; [done|]. split; [|done].
              intros q [->|Hq]%elem_of_cons; [done|by apply Hpre].
        -- destruct IH as (Hne & pre & post & b & -> & Hpre & Hb & ->).
           split; [done|]. exists (item :: pre), post, b.
           split; [done|]. split; [|done].
           intros q [->|Hq]%elem_of_cons; [done|by apply Hpre].
    + destruct Hcase as (Hne & b & Hb & ->).
      intros [= <- <- <-]. split; [done|]. exists [], rest, b.
      split; [done|]. split; [by intros q ?%elem_of_nil|done].
Qed.
End ConfigOutcomes.

Lemma getDefaultConfig_result_helper (file_at : string -> file_state)
    (json_Unmarshal : string -> DnsAddrs) (Getenv : string -> string)
    (Join : list string -> string) (conf : DnsAddrs) (path : string) (err : option error) :
  getDefaultConfig file_at json_Unmarshal Getenv Join = Some (conf, path, err) ->
  match err with None => conf <> [] | Some _ => conf = [] end.
Proof.
  intros H. apply try_paths_result in H. destruct err; by destruct H.
Qed.

(** X8.  [readConfig] returns a server list that is not empty and no
    error, for a file whose contents decode to that list; or an empty list
    and a [*ReadConfigError] that names the file, whose [Exit] is false
    for a file that does not exist and true for a directory, a read error
    or contents without servers.  It returns no other error, and it fails
    to return only when [os.Stat] fails in another way than by a missing
    file. *)
Theorem readConfig_outcomes (file_at : string -> file_state)
    (json_Unmarshal : string -> DnsAddrs) (file : string) :
  match readConfig file_at json_Unmarshal file with
  | None => file_at file = StatFails
  | Some (conf, None) =>
      conf <> [] /\ exists b, file_at file = Contents b /\ conf = json_Unmarshal b
  | Some (conf, Some e) =>
      conf = [] /\
      exists msg exit,
        e = readConfigError {| Path := file; Errmsg := msg; Exit := exit |} /\
        (exit = false -> file_at file = NotExist) /\
        (exit = true -> config_fault json_Unmarshal (file_at file) = Some msg)
  end.
Proof. apply readConfig_cases. Qed.

(** X9.  The first default path at which a file exists decides the
    lookup: when its contents decode to a list that is not empty, the
    lookup returns that list and that path without error, whatever the
    later paths hold. *)
Theorem getDefaultConfig_first_file (file_at : string -> file_state)
    (json_Unmarshal : string -> DnsAddrs) (Getenv : string -> string)
    (Join : list string -> string) (pre : list string) (p : string) (post : list string)
    (b : string) :
  default_paths Getenv Join = pre ++ p :: post ->
  (forall q, q ∈ pre -> file_at q = NotExist) ->
  file_at p = Contents b -> json_Unmarshal b <> [] ->
  getDefaultConfig file_at json_Unmarshal Getenv Join = Some (json_Unmarshal b, p, None).
Proof.
  intros Hpaths Hpre Hp Hne. unfold getDefaultConfig. rewrite Hpaths.
  rewrite try_paths_missing by done. cbn [try_paths]. unfold readConfig. rewrite Hp.
  rewrite decide_False; [done|]. intros H0. by apply nil_length_inv in H0.
Qed.

(** X10.  Whatever [getDefaultConfig] returns was decided by the first
    default path at which a file exists.  Without error, the list is not
    empty and is decoded from the file at the returned path.  With an
    error the list is empty, and either no default path holds a file, the
    error is [Configuration file not found] and the path is empty, or the
    error is the fault of the file at the returned path. *)
Theorem getDefaultConfig_result (file_at : string -> file_state)
    (json_Unmarshal : string -> DnsAddrs) (Getenv : string -> string)
    (Join : list string -> string) (conf : DnsAddrs) (path : string) (err : option error) :
  getDefaultConfig file_at json_Unmarshal Getenv Join = Some (conf, path, err) ->
  match err with
  | None =>
      conf <> [] /\
      exists pre post b,
        default_paths Getenv Join = pre ++ path :: post /\
        (forall q, q ∈ pre -> file_at q = NotExist) /\
        file_at path = Contents b /\ conf = json_Unmarshal b
  | Some e =>
      conf = [] /\
      ((path = "" /\ e = errorString "Configuration file not found" /\
        forall q, q ∈ default_paths Getenv Join -> file_at q = NotExist) \/
       (exists pre post msg,
          default_paths Getenv Join = pre ++ path :: post /\
          (forall q, q ∈ pre -> file_at q = NotExist) /\
          config_fault json_Unmarshal (file_at path) = Some msg /\
          e = readConfigError {| Path := path; Errmsg := msg; Exit := true |}))
  end.
Proof. apply try_paths_result. Qed.

(** ** [main] *)

Section MainFacts.
Variable unicode_lower : string -> string.
Variable Fqdn : string -> string.
Variable Exchange : World -> Exchange_call -> list RR + error.
Variable json_text : json -> string.
Variable file_at : string -> file_state.
Variable json_Unmarshal : string -> DnsAddrs.
Variable Getenv : string -> string.
Variable Join : list string -> string.
Variable usage_text sample_text : string.
Variable schedule : DnsAddrs -> list (nat * DnsAddr).

Local Abbreviation run_main :=
  (main unicode_lower Fqdn Exchange json_text file_at json_Unmarshal Getenv Join
     usage_text sample_text schedule).
Local Abbreviation load := (load_config file_at json_Unmarshal Getenv Join).

Lemma known_format (fl : Flags) :
  format fl ∈ [""; "std"; "json"; "ip"] ->
  let fmt := if decide (format fl = "") then "std" else format fl in
  ~ (fmt <> "std" /\ fmt <> "json" /\ fmt <> "ip").
Proof.
  intros Hformat fmt (H1 & H2 & H3). unfold fmt in *.
  repeat (apply elem_of_cons in Hformat as [Hformat|Hformat]);
    [| | | |by apply elem_of_nil in Hformat]; rewrite Hformat in *;
    by repeat case_decide.
Qed.

(** [main] once the flags let it load the configuration. *)
Lemma main_goes_on (fl : Flags) (w : World) :
  goes_on fl ->
  run_main fl w
  = match load fl with
    | None => None
    | Some (conf, confpath, Some e) => exit_with "" (Error e +:+ GoString.nl) 1 w
    | Some (conf, confpath, None) =>
        if printconf fl then
          exit_with (confpath +:+ GoString.nl +:+
                     json_text (json_of_DnsAddrs conf) +:+ GoString.nl) "" 0 w
        else
          match args fl with
          | [] =>
              exit_with ""
                ("Please input a domain for querying, use '-h' for help" +:+ GoString.nl)
                1 w
          | domain :: _ =>
              '(result, w') ← query Fqdn Exchange conf domain
                                (if useTcp fl then "tcp" else "udp") (schedule conf) w;
              if decide (format fl = "json") then
                exit_with (outputJson json_text result) "" 0 w'
              else if decide (format fl = "ip") then
                exit_with (outputNormal result) "" 0 w'
              else
                out ← output unicode_lower result;
                exit_with out "" 0 w'
          end
    end.
Proof.
  intros (Hhelp & Hsample & Hver & Hformat).
  unfold main, load_config. rewrite Hhelp, Hsample, Hver.
  rewrite (decide_False _ _ (known_format fl Hformat)).
  destruct (decide (configfile fl = "")) as [Hfile|Hfile].
  - destruct (getDefaultConfig _ _ _ _) as [[[conf confpath] [e|]]|]; try done.
    cbn [mbind option_bind]. destruct (printconf fl); [done|].
    destruct (args fl) as [|domain rest]; [done|].
    destruct (query _ _ _ _ _ _ _) as [[result w']|]; [|done]. cbn [mbind option_bind].
    repeat (apply elem_of_cons in Hformat as [Hformat|Hformat]);
      [| | | |by apply elem_of_nil in Hformat]; rewrite Hformat; by repeat case_decide.
  - destruct (readConfig _ _ _) as [[conf [e|]]|]; try done.
    cbn [mbind option_bind]. destruct (printconf fl); [done|].
    destruct (args fl) as [|domain rest]; [done|].
    destruct (query _ _ _ _ _ _ _) as [[result w']|]; [|done]. cbn [mbind option_bind].
    repeat (apply elem_of_cons in Hformat as [Hformat|Hformat]);
      [| | | |by apply elem_of_nil in Hformat]; rewrite Hformat; by repeat case_decide.
Qed.

Local Ltac close_run :=
  intros [= <-]; cbn;
  split; [first [by left | by right] | first [by left | by right]].

(** A run that ends: it succeeded with nothing on standard error, or it
    failed with status 1, nothing on standard output and no exchange. *)
Lemma main_ends (fl : Flags) (w : World) (r : Run) :
  run_main fl w = Some r ->
  ((status r = 0 /\ stderr r = "") \/
   (status r = 1 /\ stdout r = "" /\ exchanges r = w)) /\
  (exchanges r = w \/
   (help fl = false /\ sample fl = false /\ showver fl = false /\
    printconf fl = false /\ args fl <> [])).
Proof.
  unfold main, exit_with.
  destruct (help fl) eqn:Hhelp; [close_run|].
  destruct (sample fl) eqn:Hsample; [close_run|].
  destruct (showver fl) eqn:Hver; [close_run|].
  destruct (decide (_ /\ _)); [close_run|].
  destruct (if decide (configfile fl = "") then _ else _) as [[[conf confpath] [e|]]|];
    cbn [mbind option_bind]; [close_run| |done].
  destruct (printconf fl) eqn:Hprint; [close_run|].
  destruct (args fl) as [|domain rest] eqn:Hargs; [close_run|].
  destruct (query _ _ _ _ _ _ _) as [[result w']|]; [|done]. cbn [mbind option_bind].
  repeat case_decide; try close_run.
  all: destruct (output _ _); [|done]; cbn [mbind option_bind]; close_run.
Qed.
End MainFacts.

(** X11.  When [os.Stat] fails, in another way than by a missing file, for
    the file named with [-l] or for the first default path that is not
    missing, [main] neither skips the file nor reports an error: it
    panics. *)
Theorem main_stat_failure_panics (unicode_lower : string -> string)
    (Fqdn : string -> string) (Exchange : World -> Exchange_call -> list RR + error)
    (json_text : json -> string) (file_at : string -> file_state)
    (json_Unmarshal : string -> DnsAddrs) (Getenv : string -> string)
    (Join : list string -> string) (usage_text sample_text : string)
    (schedule : DnsAddrs -> list (nat * DnsAddr)) (fl : Flags) (w : World) :
  goes_on fl ->
  (configfile fl <> "" /\ file_at (configfile fl) = StatFails) \/
  (configfile fl = "" /\
   exists pre p post,
     default_paths Getenv Join = pre ++ p :: post /\
     (forall q, q ∈ pre -> file_at q = NotExist) /\ file_at p = StatFails) ->
  main unicode_lower Fqdn Exchange json_text file_at json_Unmarshal Getenv Join
    usage_text sample_text schedule fl w = None.
Proof.
  intros Hgo Hstat. rewrite main_goes_on by done. unfold load_config.
  destruct Hstat as [[Hfile Hst]|(Hfile & pre & p & post & Hpaths & Hpre & Hst)].
  - rewrite decide_False by done. unfold readConfig. by rewrite Hst.
  - rewrite decide_True by done. unfold getDefaultConfig. rewrite Hpaths.
    rewrite try_paths_missing by done. by rewrite try_paths_stat_panic.
Qed.


(** X13.  With a configuration that loads, a domain given and no other
    request, [main] queries the servers of the configuration for the first
    argument, over [tcp] with [-t] and over [udp] without, and prints the
    result in the format asked for: the table for [std] and for no format,
    the JSON line for [json], the IP lines for [ip].  It exits with status
    0, and it does not panic. *)
Theorem main_query_run (unicode_lower : string -> string)
    (Fqdn : string -> string) (Exchange : World -> Exchange_call -> list RR + error)
    (json_text : json -> string) (file_at : string -> file_state)
    (json_Unmarshal : string -> DnsAddrs) (Getenv : string -> string)
    (Join : list string -> string) (usage_text sample_text : string)
    (schedule : DnsAddrs -> list (nat * DnsAddr)) (fl : Flags) (w : World)
    (conf : DnsAddrs) (confpath domain : string) (rest : list string) :
  goes_on fl -> printconf fl = false -> args fl = domain :: rest ->
  load_config file_at json_Unmarshal Getenv Join fl = Some (conf, confpath, None) ->
  schedule_of conf (schedule conf) ->
  exists result w',
    query Fqdn Exchange conf domain (if useTcp fl then "tcp" else "udp")
      (schedule conf) w = Some (result, w') /\
    length result = length conf /\ conf <> [] /\
    main unicode_lower Fqdn Exchange json_text file_at json_Unmarshal Getenv Join
      usage_text sample_text schedule fl w
    = Some {| stdout := if decide (format fl = "json") then outputJson json_text result
                        else if decide (format fl = "ip") then outputNormal result
                        else table_text unicode_lower result;
              stderr := ""; status := 0; exchanges := w' |}.
Proof.
  intros Hgo Hprint Hargs Hload Hs.
  destruct (query_spec Fqdn Exchange domain (if useTcp fl then "tcp" else "udp")
              conf (schedule conf) w Hs) as (result & w' & Hq & Hlen & _).
  assert (conf <> []) as Hne.
  { unfold load_config in Hload. destruct (decide _).
    - exact (getDefaultConfig_result_helper file_at json_Unmarshal Getenv Join
               conf confpath None Hload).
    - pose proof (readConfig_cases file_at json_Unmarshal (configfile fl)) as Hc.
      destruct (readConfig _ _ _) as [[conf1 err1]|]; [|done].
      cbn [mbind option_bind] in Hload. injection Hload as -> _ ->. by destruct Hc. }
  exists result, w'. split; [done|]. split; [done|]. split; [done|].
  rewrite main_goes_on by done. rewrite Hload, Hprint, Hargs, Hq.
  cbn [mbind option_bind].
  destruct (decide (format fl = "json")); [done|].
  destruct (decide (format fl = "ip")); [done|].
  rewrite output_spec; [done|].
  intros ->. destruct conf; [done|]. discriminate Hlen.
Qed.

(** X14.  A file named with [-l] that does not exist ends the run: unlike
    a missing default path it is not passed over.  [main] prints the
    load error of that file to standard error and exits with status 1
    without an exchange. *)
Theorem main_load_missing (unicode_lower : string -> string)
    (Fqdn : string -> string) (Exchange : World -> Exchange_call -> list RR + error)
    (json_text : json -> string) (file_at : string -> file_state)
    (json_Unmarshal : string -> DnsAddrs) (Getenv : string -> string)
    (Join : list string -> string) (usage_text sample_text : string)
    (schedule : DnsAddrs -> list (nat * DnsAddr)) (fl : Flags) (w : World) :
  goes_on fl -> configfile fl <> "" -> file_at (configfile fl) = NotExist ->
  main unicode_lower Fqdn Exchange json_text file_at json_Unmarshal Getenv Join
    usage_text sample_text schedule fl w
  = Some {| stdout := "";
            stderr := "Configuration file '" +:+ configfile fl
                      +:+ "' load error: file does not exists" +:+ GoString.nl;
            status := 1; exchanges := w |}.
Proof.
  intros Hgo Hfile Hst. rewrite main_goes_on by done. unfold load_config.
  rewrite decide_False by done. rewrite readConfig_missing by done.
  cbn [mbind option_bind]. unfold exit_with. f_equal. f_equal.
  cbn [Error Path Errmsg]. by rewrite !GoStringFacts.append_assoc.
Qed.

(** ** Flat mode and the cells of the table *)

Lemma allIP_same_ips (a a' : Answers) :
  (forall ip, (exists item, item ∈ a /\ ip ∈ Answer_IP item) <->
              (exists item, item ∈ a' /\ ip ∈ Answer_IP item)) ->
  allIP a = allIP a'.
Proof.
  intros H. apply (StronglySorted_unique String.le).
  - apply sort_Strings_Sorted.
  - apply sort_Strings_Sorted.
  - apply NoDup_Permutation; [apply NoDup_allIP..|].
    intros ip. by rewrite !elem_of_allIP.
Qed.

(** X15.  [outputNormal] depends only on the set of IP strings held by
    the results: not on the servers, their order or their errors, nor on
    how often or where an IP string occurs. *)
Theorem outputNormal_depends_on_ips (a a' : Answers) :
  (forall ip, (exists item, item ∈ a /\ ip ∈ Answer_IP item) <->
              (exists item, item ∈ a' /\ ip ∈ Answer_IP item)) ->
  allIP a = allIP a' /\ outputNormal a = outputNormal a'.
Proof.
  intros H. apply allIP_same_ips in H. split; [done|].
  unfold outputNormal. by rewrite H.
Qed.

(** X16.  For an error, [errToString] returns one of its five labels,
    none wider than 13 runes; it returns the empty string for the nil
    error only. *)
Theorem errToString_labels (unicode_lower : string -> string) (err : option error) :
  match err with
  | None => errToString unicode_lower err = ""
  | Some _ =>
      errToString unicode_lower err
        ∈ ["Timeout"; "Conn refused"; "NS invalid"; "No result"; "Connect error"]
  end /\
  GoString.RuneCountInString (errToString unicode_lower err) <= 13.
Proof.
  split; [|apply errToString_width].
  destruct err as [e|]; [|done]. simpl.
  repeat case_match; set_solver.
Qed.

Section Cells.
Variable unicode_lower : string -> string.

Lemma errToString_No_result :
  errToString unicode_lower (Some (errorString "No result")) = "No result".
Proof. reflexivity. Qed.

(** In the table of results whose errors come without IPs, the row of a
    union IP shows it. *)
Lemma union_row_cell (a : Answers) (j : nat) (x : string) :
  (forall item, item ∈ a -> error_without_ips item) ->
  allIP a !! j = Some x ->
  exists i item,
    a !! i = Some item /\ Answer_Error item = None /\ x ∈ Answer_IP item /\
    mjoin (table_body unicode_lower a) !! (j * length a + i) = Some x.
Proof.
  intros Hwf Hx.
  assert (x ∈ allIP a) as Hin by by eapply list_elem_of_lookup_2.
  apply elem_of_allIP in Hin as (item & Hitem & Hip).
  assert (Answer_Error item = None) as Herr.
  { destruct (Answer_Error item) as [e|] eqn:He; [|done].
    rewrite (Hwf item Hitem) in Hip; [by apply elem_of_nil in Hip|by rewrite He]. }
  apply list_elem_of_lookup in Hitem as [i Hi].
  exists i, item. split; [done|]. split; [done|]. split; [done|].
  rewrite table_body_lookup.
  - rewrite (table_cell_ip unicode_lower a i item j x) by done.
    by rewrite decide_True.
  - by eapply lookup_lt_Some.
  - apply lookup_lt_Some in Hx. lia.
Qed.
End Cells.

(** X17.  A server whose exchange returns an answer without A records is
    shown in the table as [No result]: in the slice that [output] prints
    for the result of [query], row 0 of that server's column holds
    [No result] and the rows below hold the dash. *)
Theorem query_no_records_cell (unicode_lower : string -> string) (Fqdn : string -> string)
    (Exchange : World -> Exchange_call -> list RR + error)
    (dns : DnsAddrs) (domain net : string) (sched : list (nat * DnsAddr)) (w : World)
    (i : nat) (d : DnsAddr) :
  net = "tcp" \/ net = "udp" ->
  schedule_of dns sched ->
  dns !! i = Some d ->
  (forall w0, exists answer,
     Exchange w0 (query_call Fqdn domain net d) = inl answer /\ a_addresses answer = []) ->
  exists answers w' head ip,
    query Fqdn Exchange dns domain net sched w = Some (answers, w') /\
    output_grid unicode_lower answers = Some (head, ip) /\
    ip !! i = Some "No result" /\
    forall j, 0 < j -> j < 1 `max` length (allIP answers) ->
      ip !! (j * length dns + i) = Some "-".
Proof.
  intros Hnet Hs Hd Hex.
  destruct (query_spec Fqdn Exchange domain net dns sched w Hs)
    as (answers & w' & Hq & Hlen & Hslot & _).
  destruct (Hslot i d Hd) as [w0 Hi].
  assert ((goroutine_answer Fqdn Exchange domain net d w0).1
          = {| Answer_DnsAddr := d; Answer_IP := [];
               Answer_Error := Some (errorString "No result") |}) as Hans.
  { apply goroutine_answer_no_result. unfold ARecords.
    rewrite decide_False by (intros [? ?]; destruct Hnet; done).
    destruct (Hex w0) as (answer & Hanswer & Hnone).
    change (pretty 53%N) with "53".
    replace (Address d +:+ ":" +:+ "53") with (Address d +:+ ":53")
      by (induction (Address d); simpl; congruence).
    unfold query_call in Hanswer. cbn [head]. rewrite Hanswer. simpl.
    by rewrite a_records_addresses, Hnone. }
  rewrite Hans in Hi.
  assert (i < length answers) as Hlt by by eapply lookup_lt_Some.
  eexists answers, w', _, _. split; [done|]. split; [apply output_grid_spec|].
  split.
  - pose proof (table_body_lookup unicode_lower answers 0 i) as H0.
    cbn [Nat.mul Nat.add] in H0. rewrite H0 by lia.
    by rewrite (table_cell_error unicode_lower answers i _ _ 0 Hi eq_refl).
  - intros j Hj HjR. rewrite <- Hlen. rewrite table_body_lookup by done.
    rewrite (table_cell_error unicode_lower answers i _ _ j Hi eq_refl).
    by rewrite decide_False by lia.
Qed.

(** X18.  When every result with an error has no IP, as in the slices of
    [query], every row of a union IP shows that IP in the column of some
    server without error that returned it: no body row for an IP is made
    of dashes only. *)
Theorem union_row_shows_ip (unicode_lower : string -> string) (a : Answers)
    (j : nat) (x : string) :
  (forall item, item ∈ a -> error_without_ips item) ->
  allIP a !! j = Some x ->
  exists head ip i item,
    output_grid unicode_lower a = Some (head, ip) /\
    a !! i = Some item /\ Answer_Error item = None /\ x ∈ Answer_IP item /\
    ip !! (j * length a + i) = Some x.
Proof.
  intros Hwf Hx.
  destruct (union_row_cell unicode_lower a j x Hwf Hx) as (i & item & Hi & He & Hin & Hcell).
  eexists _, _, i, item. split; [apply output_grid_spec|]. done.
Qed.

(** ** Printing the configuration, and header cells *)

(** X19.  With [-c] and a configuration that loads, [main] prints the
    path of the configuration and its servers as JSON, and exits with
    status 0 without an exchange; it asks for no domain. *)
Theorem main_print_config (unicode_lower : string -> string)
    (Fqdn : string -> string) (Exchange : World -> Exchange_call -> list RR + error)
    (json_text : json -> string) (file_at : string -> file_state)
    (json_Unmarshal : string -> DnsAddrs) (Getenv : string -> string)
    (Join : list string -> string) (usage_text sample_text : string)
    (schedule : DnsAddrs -> list (nat * DnsAddr)) (fl : Flags) (w : World)
    (conf : DnsAddrs) (confpath : string) :
  goes_on fl -> printconf fl = true ->
  load_config file_at json_Unmarshal Getenv Join fl = Some (conf, confpath, None) ->
  main unicode_lower Fqdn Exchange json_text file_at json_Unmarshal Getenv Join
    usage_text sample_text schedule fl w
  = Some {| stdout := confpath +:+ GoString.nl
                      +:+ json_text (JArray ((fun d =>
                            JObject [("Name", JString (Name d));
                                     ("Address", JString (Address d))]) <$> conf))
                      +:+ GoString.nl;
            stderr := ""; status := 0; exchanges := w |}.
Proof.
  intros Hgo Hprint Hload. rewrite main_goes_on by done.
  by rewrite Hload, Hprint.
Qed.

Module HeadCellFacts.
Import GoString.

Lemma trunc_from_whole (n skip : nat) (s : string) :
  count_from skip s <= n -> trunc_from n skip s = s.
Proof.
  revert n skip. induction s as [|c r IH]; intros n skip Hn; [done|].
  destruct skip as [|skip].
  - change (count_from 0 (String c r))
      with (S (count_from (rune_size (String c r) - 1) r)) in Hn.
    destruct n as [|n]; [lia|].
    change (trunc_from (S n) 0 (String c r))
      with (String c (trunc_from n (rune_size (String c r) - 1) r)).
    rewrite IH; [done|lia].
  - cbn [trunc_from]. cbn [count_from] in Hn. by rewrite IH.
Qed.
End HeadCellFacts.

(** X20.  A name or address of at most 16 runes is printed whole in its
    header cell and followed by spaces up to 17 runes; only a longer one
    is cut. *)
Theorem head_cell_whole (text : string) :
  GoString.RuneCountInString text <= 16 ->
  GoString.Sprintf_s 17 (Some 16) text
  = text +:+ GoString.Repeat " " (17 - GoString.RuneCountInString text).
Proof.
  intros H. unfold GoString.Sprintf_s, GoString.padString, GoString.truncateString.
  by rewrite HeadCellFacts.trunc_from_whole.
Qed.

(** The slices of [query] hold no IP beside an error. *)
Lemma query_error_without_ips (Fqdn : string -> string)
    (Exchange : World -> Exchange_call -> list RR + error)
    (dns : DnsAddrs) (domain net : string) (sched : list (nat * DnsAddr)) (w : World)
    (answers : Answers) (w' : World) (item : Answer) :
  schedule_of dns sched ->
  query Fqdn Exchange dns domain net sched w = Some (answers, w') ->
  item ∈ answers -> error_without_ips item.
Proof.
  intros Hs Hq Hitem.
  destruct (query_elements Fqdn Exchange domain net dns sched w answers w' item Hs Hq Hitem)
    as (d & w0 & _ & ->).
  intros Herr.
  destruct (goroutine_answer_outcome Fqdn Exchange domain net d w0) as [[_ Hn]|[Hn _]];
    [|done].
  rewrite Hn in Herr. by destruct Herr.
Qed.

(** * The further properties on the sample runs *)

Lemma ARecords_exchange_witness :
  ARecords Sample.Fqdn Sample.Exchange "example.com" "8.8.8.8" 53 "tcp" [3%N; 9%N] []
  = ((["93.184.216.34"], None),
     [ {| call_net := "tcp"; call_timeout := Some 3%N;
          call_question := "example.com."; call_server := "8.8.8.8:53" |} ]).
Proof.
  rewrite (ARecords_exchange Sample.Fqdn Sample.Exchange "example.com" "8.8.8.8" 53
             "tcp" [3%N; 9%N] []) by (by left).
  reflexivity.
Defined.

Lemma ARecords_ip_text_witness :
  GoString.isASCII "93.184.216.34" = true /\
  7 <= String.length "93.184.216.34" <= 15 /\
  GoString.RuneCountInString "93.184.216.34" = String.length "93.184.216.34".
Proof.
  apply (ARecords_ip_text Sample.Fqdn Sample.Exchange "example.com" "8.8.8.8" 53
           "udp" [3%N] [] "93.184.216.34").
  vm_compute. left.
Defined.

Lemma query_output_shape_witness :
  exists answers w',
    query Sample.Fqdn Sample.Exchange Sample.conf "example.com" "udp" Sample.sched []
    = Some (answers, w') /\
    table_shape GoString.lower_ascii answers.
Proof.
  apply (query_output_shape GoString.lower_ascii Sample.Fqdn Sample.Exchange Sample.conf
           "example.com" "udp" Sample.sched []).
  - discriminate.
  - apply sample_schedule.
Defined.

Lemma sample_exchange_history (w1 w2 : World) (call : Exchange_call) :
  Sample.Exchange w1 call = Sample.Exchange w2 call.
Proof. reflexivity. Qed.

Lemma query_schedule_independent_witness :
  exists w',
    query Sample.Fqdn Sample.Exchange Sample.conf "example.com" "udp" Sample.sched []
    = Some ((fun d => (goroutine_answer Sample.Fqdn Sample.Exchange
                         "example.com" "udp" d []).1) <$> Sample.conf, w').
Proof.
  apply (query_schedule_independent Sample.Fqdn Sample.Exchange Sample.conf
           "example.com" "udp" Sample.sched []).
  - apply sample_exchange_history.
  - apply sample_schedule.
Defined.

Lemma query_exchanges_witness :
  exists answers,
    query Sample.Fqdn Sample.Exchange Sample.conf "example.com" "tcp" Sample.sched []
    = Some (answers,
            [] ++ (query_call Sample.Fqdn "example.com" "tcp" <$> Sample.sched.*2)) /\
    query_call Sample.Fqdn "example.com" "tcp" <$> Sample.sched.*2
    ≡ₚ query_call Sample.Fqdn "example.com" "tcp" <$> Sample.conf.
Proof.
  apply (query_exchanges Sample.Fqdn Sample.Exchange Sample.conf "example.com" "tcp"
           Sample.sched []).
  - by left.
  - apply sample_schedule.
Defined.

Lemma sample_run_paths :
  default_paths Sample.Getenv Sample.Join
  = ["/home/u/.config/ipre.conf"] ++ "/home/u/.ipre" :: ["/etc/ipre.conf"].
Proof. reflexivity. Qed.

Lemma sample_run_missing (q : string) :
  q ∈ ["/home/u/.config/ipre.conf"] -> SampleRun.file_at q = NotExist.
Proof. intros ->%list_elem_of_singleton. reflexivity. Qed.

Lemma getDefaultConfig_first_file_witness :
  getDefaultConfig SampleRun.file_at SampleRun.json_Unmarshal Sample.Getenv Sample.Join
  = Some (SampleRun.json_Unmarshal "two servers", "/home/u/.ipre", None).
Proof.
  apply (getDefaultConfig_first_file SampleRun.file_at SampleRun.json_Unmarshal
           Sample.Getenv Sample.Join ["/home/u/.config/ipre.conf"] "/home/u/.ipre"
           ["/etc/ipre.conf"] "two servers").
  - apply sample_run_paths.
  - apply sample_run_missing.
  - reflexivity.
  - discriminate.
Defined.

Lemma sample_run_load :
  getDefaultConfig SampleRun.file_at SampleRun.json_Unmarshal Sample.Getenv Sample.Join
  = Some (Sample.conf, "/home/u/.ipre", None).
Proof. reflexivity. Qed.

Lemma getDefaultConfig_result_witness :
  Sample.conf <> [] /\
  exists pre post b,
    default_paths Sample.Getenv Sample.Join = pre ++ "/home/u/.ipre" :: post /\
    (forall q, q ∈ pre -> SampleRun.file_at q = NotExist) /\
    SampleRun.file_at "/home/u/.ipre" = Contents b /\
    Sample.conf = SampleRun.json_Unmarshal b.
Proof.
  exact (getDefaultConfig_result SampleRun.file_at SampleRun.json_Unmarshal
           Sample.Getenv Sample.Join Sample.conf "/home/u/.ipre" None sample_run_load).
Defined.

Lemma sample_run_goes_on : goes_on SampleRun.flags.
Proof. repeat split. left. Qed.

Lemma main_stat_failure_panics_witness :
  main GoString.lower_ascii Sample.Fqdn Sample.Exchange SampleRun.json_text
    SampleRun.file_at_denied SampleRun.json_Unmarshal Sample.Getenv Sample.Join
    "usage" "sample" SampleRun.schedule SampleRun.flags [] = None.
Proof.
  apply main_stat_failure_panics; [apply sample_run_goes_on|].
  right. split; [reflexivity|].
  exists [], "/home/u/.config/ipre.conf", ["/home/u/.ipre"; "/etc/ipre.conf"].
  split; [reflexivity|]. split; [by intros q ?%elem_of_nil|reflexivity].
Defined.

Lemma sample_run_schedule (conf : DnsAddrs) : schedule_of conf (SampleRun.schedule conf).
Proof. unfold schedule_of, SampleRun.schedule. apply reverse_Permutation. Qed.

Lemma main_query_run_witness :
  exists result w',
    query Sample.Fqdn Sample.Exchange Sample.conf "example.com" "udp"
      (SampleRun.schedule Sample.conf) [] = Some (result, w') /\
    length result = length Sample.conf /\ Sample.conf <> [] /\
    main GoString.lower_ascii Sample.Fqdn Sample.Exchange SampleRun.json_text
      SampleRun.file_at SampleRun.json_Unmarshal Sample.Getenv Sample.Join
      "usage" "sample" SampleRun.schedule SampleRun.flags []
    = Some {| stdout := table_text GoString.lower_ascii result;
              stderr := ""; status := 0; exchanges := w' |}.
Proof.
  apply (main_query_run GoString.lower_ascii Sample.Fqdn Sample.Exchange
           SampleRun.json_text SampleRun.file_at SampleRun.json_Unmarshal
           Sample.Getenv Sample.Join "usage" "sample" SampleRun.schedule
           SampleRun.flags [] Sample.conf "/home/u/.ipre" "example.com" []).
  - apply sample_run_goes_on.
  - reflexivity.
  - reflexivity.
  - reflexivity.
  - apply sample_run_schedule.
Defined.


Lemma sample_load_goes_on : goes_on SampleRun.flags_load.
Proof. repeat split. do 3 right. left. Qed.

Lemma main_load_missing_witness :
  main GoString.lower_ascii Sample.Fqdn Sample.Exchange SampleRun.json_text
    SampleRun.file_at SampleRun.json_Unmarshal Sample.Getenv Sample.Join
    "usage" "sample" SampleRun.schedule SampleRun.flags_load []
  = Some {| stdout := "";
            stderr := "Configuration file '/tmp/none.conf' load error: file does not exists"
                      +:+ GoString.nl;
            status := 1; exchanges := [] |}.
Proof.
  apply (main_load_missing GoString.lower_ascii Sample.Fqdn Sample.Exchange
           SampleRun.json_text SampleRun.file_at SampleRun.json_Unmarshal Sample.Getenv
           Sample.Join "usage" "sample" SampleRun.schedule SampleRun.flags_load []).
  - apply sample_load_goes_on.
  - discriminate.
  - reflexivity.
Defined.

Lemma outputNormal_depends_on_ips_witness :
  allIP Sample.two_ips = allIP (reverse Sample.two_ips) /\
  outputNormal Sample.two_ips = outputNormal (reverse Sample.two_ips).
Proof.
  apply (outputNormal_depends_on_ips Sample.two_ips (reverse Sample.two_ips)).
  intros ip. split; intros (item & Hitem & Hip); exists item;
    (split; [|done]).
  - by apply elem_of_reverse.
  - by apply elem_of_reverse in Hitem.
Defined.

Lemma query_no_records_cell_witness :
  exists answers w' head ip,
    query Sample.Fqdn SampleRun.no_records Sample.conf "example.com" "udp" Sample.sched []
    = Some (answers, w') /\
    output_grid GoString.lower_ascii answers = Some (head, ip) /\
    ip !! 1 = Some "No result" /\
    forall j, 0 < j -> j < 1 `max` length (allIP answers) ->
      ip !! (j * length Sample.conf + 1) = Some "-".
Proof.
  apply (query_no_records_cell GoString.lower_ascii Sample.Fqdn SampleRun.no_records
           Sample.conf "example.com" "udp" Sample.sched [] 1 Sample.Google).
  - by right.
  - apply sample_schedule.
  - reflexivity.
  - intros w0. by exists [RR_other].
Defined.

Lemma sample_error_without_ips (item : Answer) :
  item ∈ Sample.answers -> error_without_ips item.
Proof.
  unfold Sample.answers. intros Hitem.
  repeat (apply elem_of_cons in Hitem as [->|Hitem]).
  - done.
  - by intros [? ?].
  - by apply elem_of_nil in Hitem.
Qed.

Lemma sample_union : allIP Sample.answers !! 0 = Some "93.184.216.34".
Proof. vm_compute. reflexivity. Qed.

Lemma union_row_shows_ip_witness :
  exists head ip i item,
    output_grid GoString.lower_ascii Sample.answers = Some (head, ip) /\
    Sample.answers !! i = Some item /\ Answer_Error item = None /\
    "93.184.216.34" ∈ Answer_IP item /\
    ip !! (0 * length Sample.answers + i) = Some "93.184.216.34".
Proof.
  apply (union_row_shows_ip GoString.lower_ascii Sample.answers 0 "93.184.216.34").
  - apply sample_error_without_ips.
  - apply sample_union.
Defined.

Lemma sample_print_goes_on : goes_on SampleRun.flags_print.
Proof. repeat split. do 2 right. left. Qed.

Lemma main_print_config_witness :
  main GoString.lower_ascii Sample.Fqdn Sample.Exchange SampleRun.json_text
    SampleRun.file_at SampleRun.json_Unmarshal Sample.Getenv Sample.Join
    "usage" "sample" SampleRun.schedule SampleRun.flags_print []
  = Some {| stdout := "/home/u/.ipre" +:+ GoString.nl +:+ "json" +:+ GoString.nl;
            stderr := ""; status := 0; exchanges := [] |}.
Proof.
  rewrite (main_print_config GoString.lower_ascii Sample.Fqdn Sample.Exchange
             SampleRun.json_text SampleRun.file_at SampleRun.json_Unmarshal Sample.Getenv
             Sample.Join "usage" "sample" SampleRun.schedule SampleRun.flags_print []
             Sample.conf "/home/u/.ipre" sample_print_goes_on eq_refl eq_refl).
  reflexivity.
Defined.

Lemma head_cell_whole_witness :
  GoString.Sprintf_s 17 (Some 16) "AliDNS" = "AliDNS           ".
Proof.
  rewrite (head_cell_whole "AliDNS") by (vm_compute; lia).
  reflexivity.
Defined.

(** ** [query]: what every element holds *)

Section QueryTrace.
Variable Fqdn : string -> string.
Variable Exchange : World -> Exchange_call -> list RR + error.
Variables domain net : string.

Lemma goroutine_answer_valid (d : DnsAddr) (w : World) :
  net = "tcp" \/ net = "udp" ->
  goroutine_answer Fqdn Exchange domain net d w
  = (answer_for d (Exchange w (query_call Fqdn domain net d)),
     w ++ [query_call Fqdn domain net d]).
Proof.
  intros Hnet. unfold goroutine_answer, ARecords.
  rewrite decide_False by (intros [? ?]; destruct Hnet; done).
  change (pretty 53%N) with "53".
  replace (Address d +:+ ":" +:+ "53") with (Address d +:+ ":53")
    by (induction (Address d); simpl; congruence).
  cbn [head]. fold (query_call Fqdn domain net d).
  unfold answer_for.
  destruct (Exchange w (query_call Fqdn domain net d)) as [answer|err]; [|done].
  cbn [zero_Answer Answer_IP Answer_Error Answer_DnsAddr].
  destruct (a_records answer) as [|ip ips]; [done|].
  by rewrite decide_False by done.
Qed.

Lemma goroutine_answer_rejected (d : DnsAddr) (w : World) :
  net <> "tcp" /\ net <> "udp" ->
  goroutine_answer Fqdn Exchange domain net d w = (rejected_answer d, w).
Proof.
  intros Hnet. unfold goroutine_answer, ARecords. by rewrite decide_True by done.
Qed.

(** The goroutine that runs at place [k] of the schedule makes its
    exchange after those of the goroutines before it, and its slot holds
    the answer for what that exchange returned. *)
Lemma run_goroutines_trace (sched : list (nat * DnsAddr)) (answers answers' : Answers)
    (w w' : World) :
  net = "tcp" \/ net = "udp" ->
  (forall n d, (n, d) ∈ sched -> n < length answers) ->
  NoDup sched.*1 ->
  run_goroutines Fqdn Exchange domain net sched answers w = Some (answers', w') ->
  forall k n d, sched !! k = Some (n, d) ->
    answers' !! n
    = Some (answer_for d
              (Exchange (w ++ (query_call Fqdn domain net <$> (take k sched).*2))
                 (query_call Fqdn domain net d))).
Proof.
  intros Hnet. revert answers w.
  induction sched as [|[n0 d0] rest IH]; intros answers w Hin Hnd Hrun k n d Hk; [done|].
  cbn [fmap list_fmap] in Hnd. apply NoDup_cons in Hnd as [Hn0 Hnd].
  assert (n0 < length answers) as Hlt by (apply (Hin n0 d0); left).
  cbn [run_goroutines] in Hrun. rewrite goroutine_spec in Hrun by done.
  rewrite goroutine_answer_valid in Hrun by done. cbn [mbind option_bind fst snd] in Hrun.
  set (answers1 := <[n0 := _]> answers) in Hrun.
  assert (forall m d', (m, d') ∈ rest -> m < length answers1) as Hin1.
  { intros m d' H. unfold answers1. rewrite length_insert. apply (Hin m d'). by right. }
  destruct k as [|k].
  - injection Hk as -> ->. cbn [take fmap list_fmap]. rewrite app_nil_r.
    destruct (run_goroutines_spec Fqdn Exchange domain net rest answers1
                (w ++ [query_call Fqdn domain net d]) Hin1 Hnd)
      as (answers2 & w2 & Hrun2 & _ & Hkeep & _).
    rewrite Hrun in Hrun2. injection Hrun2 as <- <-.
    rewrite (Hkeep n Hn0). unfold answers1. by rewrite list_lookup_insert_eq by done.
  - cbn [lookup list_lookup] in Hk.
    rewrite (IH answers1 _ Hin1 Hnd Hrun k n d Hk).
    cbn [take fmap list_fmap snd]. by rewrite <- app_assoc.
Qed.
End QueryTrace.

(** C7.  [query] always returns its slice, as long as the server list.
    With [tcp] or [udp] every goroutine makes one exchange, in the order
    in which the goroutines run, and the slot of its server holds the
    answer for what that exchange returned: when the exchange failed, its
    error with no IP.  So a failure at one server is data in the element
    of that server and nothing else.  With another [net], [ARecords]
    rejects it before any exchange: [query] makes none, and every element
    holds the rejection.  [ARecords] has no other error than the error of
    its exchange and that rejection. *)
Theorem query_failures_are_data (Fqdn : string -> string)
    (Exchange : World -> Exchange_call -> list RR + error)
    (dns : DnsAddrs) (domain net : string) (sched : list (nat * DnsAddr)) (w : World) :
  schedule_of dns sched ->
  exists answers w',
    query Fqdn Exchange dns domain net sched w = Some (answers, w') /\
    length answers = length dns /\
    (net = "tcp" \/ net = "udp" ->
       w' = w ++ (query_call Fqdn domain net <$> sched.*2) /\
       forall k n d, sched !! k = Some (n, d) ->
         let w0 := w ++ (query_call Fqdn domain net <$> (take k sched).*2) in
         dns !! n = Some d /\
         answers !! n
         = Some (answer_for d (Exchange w0 (query_call Fqdn domain net d))) /\
         forall e, Exchange w0 (query_call Fqdn domain net d) = inr e ->
           answers !! n
           = Some {| Answer_DnsAddr := d; Answer_IP := []; Answer_Error := Some e |}) /\
    (net <> "tcp" /\ net <> "udp" ->
       w' = w /\
       forall i d, dns !! i = Some d ->
         answers !! i
         = Some {| Answer_DnsAddr := d; Answer_IP := [];
                   Answer_Error :=
                     Some (errorString
                             "The Parameter 'net' should only be 'tcp' or 'udp'.") |}) /\
    (forall nameserver port timeout w0 e,
       (ARecords Fqdn Exchange domain nameserver port net timeout w0).1.2 = Some e ->
       (net <> "tcp" /\ net <> "udp" /\
        e = errorString "The Parameter 'net' should only be 'tcp' or 'udp'." /\
        (ARecords Fqdn Exchange domain nameserver port net timeout w0).2 = w0) \/
       ((net = "tcp" \/ net = "udp") /\
        exists call, Exchange w0 call = inr e /\
          (ARecords Fqdn Exchange domain nameserver port net timeout w0).2
          = w0 ++ [call])).
Proof.
  intros Hs.
  destruct (query_spec Fqdn Exchange domain net dns sched w Hs)
    as (answers & w' & Hq & Hlen & Hslot & Hbad & _).
  exists answers, w'. split; [done|]. split; [done|].
  assert (forall n d, (n, d) ∈ sched -> dns !! n = Some d) as Hsched.
  { intros n d H. unfold schedule_of in Hs. rewrite Hs in H. by apply elem_of_launched. }
  split; [|split; [|apply ARecords_error_cases]].
  - intros Hnet. split; [by eapply run_goroutines_calls|].
    intros k n d Hk w0.
    assert (answers !! n
            = Some (answer_for d (Exchange w0 (query_call Fqdn domain net d)))) as Hn.
    { unfold query in Hq.
      apply (run_goroutines_trace Fqdn Exchange domain net sched
               (replicate (length dns) zero_Answer) answers w w' Hnet); [| |done|done].
      - intros m d' H. rewrite length_replicate. eapply lookup_lt_Some. by apply Hsched.
      - unfold schedule_of in Hs. rewrite Hs, launched_fst. apply NoDup_seq. }
    split; [apply Hsched; by eapply list_elem_of_lookup_2|]. split; [done|].
    intros e He. by rewrite Hn, He.
  - intros Hnet. split; [by apply Hbad|]. intros i d Hi.
    destruct (Hslot i d Hi) as [w0 ->].
    by rewrite goroutine_answer_rejected.
Qed.

(** On the sample run the first server times out: its element holds the
    error of the exchange, and the second server's element its address. *)
Lemma query_failures_are_data_witness :
  exists answers w',
    query Sample.Fqdn Sample.Exchange Sample.conf "example.com" "udp" Sample.sched []
    = Some (answers, w') /\
    answers !! 0
    = Some {| Answer_DnsAddr := Sample.AliDNS; Answer_IP := [];
              Answer_Error := Some (errorString "read udp 223.5.5.5:53: i/o timeout") |} /\
    answers !! 1
    = Some {| Answer_DnsAddr := Sample.Google; Answer_IP := ["93.184.216.34"];
              Answer_Error := None |}.
Proof.
  destruct (query_failures_are_data Sample.Fqdn Sample.Exchange Sample.conf
              "example.com" "udp" Sample.sched [] sample_schedule)
    as (answers & w' & Hq & _ & Hgood & _).
  destruct (Hgood (or_intror eq_refl)) as [_ Hslots].
  exists answers, w'. split; [exact Hq|]. split.
  - exact (proj2 (proj2 (Hslots 1 0 Sample.AliDNS eq_refl)) _ eq_refl).
  - exact (proj1 (proj2 (Hslots 0 1 Sample.Google eq_refl))).
Defined.

(** ** Faults of a configuration file that are not reported *)

(** C9.  Two faults of a configuration file do not end the lookup with an
    error.  Let [p] be a default search path before which no file exists.
    When [json.Unmarshal] reports an error for the contents of the file at
    [p] but leaves a server in the list, [readConfig] drops that error and
    the lookup returns the list and [p] as a success.  When [os.Stat]
    fails for [p] in another way than by a missing file, [readConfig]
    calls [IsDir] on the nil [stat] and the lookup panics. *)
Theorem getDefaultConfig_faults_unreported (file_at : string -> file_state)
    (Unmarshal : string -> DnsAddrs * option error) (Getenv : string -> string)
    (Join : list string -> string) (pre : list string) (p : string) (post : list string) :
  default_paths Getenv Join = pre ++ p :: post ->
  (forall q, q ∈ pre -> file_at q = NotExist) ->
  (forall b err,
     file_at p = Contents b -> (Unmarshal b).2 = Some err -> (Unmarshal b).1 <> [] ->
     getDefaultConfig file_at (fun b => (Unmarshal b).1) Getenv Join
     = Some ((Unmarshal b).1, p, None)) /\
  (file_at p = StatFails ->
   getDefaultConfig file_at (fun b => (Unmarshal b).1) Getenv Join = None).
Proof.
  intros Hpaths Hpre. split.
  - intros b err Hb _ Hne. unfold getDefaultConfig. rewrite Hpaths.
    rewrite try_paths_missing by done. cbn [try_paths]. unfold readConfig. rewrite Hb.
    rewrite decide_False; [done|]. intros H0. by apply nil_length_inv in H0.
  - intros Hst. unfold getDefaultConfig. rewrite Hpaths.
    rewrite try_paths_missing by done. by apply try_paths_stat_panic.
Qed.

(** The contents [[1]] at [~/.ipre] are taken for a configuration of one
    server without name and address. *)
Lemma getDefaultConfig_faults_unreported_witness :
  getDefaultConfig SampleFaults.file_at (fun b => (SampleFaults.Unmarshal b).1)
    Sample.Getenv Sample.Join
  = Some ([ {| Name := ""; Address := "" |} ], "/home/u/.ipre", None).
Proof.
  refine (proj1 (getDefaultConfig_faults_unreported SampleFaults.file_at
            SampleFaults.Unmarshal Sample.Getenv Sample.Join
            ["/home/u/.config/ipre.conf"] "/home/u/.ipre" ["/etc/ipre.conf"]
            sample_run_paths _) "[1]" _ eq_refl eq_refl _).
  - intros q ->%list_elem_of_singleton. reflexivity.
  - discriminate.
Defined.

(** [main] then queries that server: it exits with status 0 after an
    exchange with the address [:53]. *)
Example main_malformed_sample :
  main GoString.lower_ascii Sample.Fqdn Sample.Exchange SampleRun.json_text
    SampleFaults.file_at (fun b => (SampleFaults.Unmarshal b).1) Sample.Getenv Sample.Join
    "usage" "sample" SampleRun.schedule SampleRun.flags []
  = Some {| stdout := "                 " +:+ GoString.nl
                      +:+ "                 " +:+ GoString.nl
                      +:+ "-----------------" +:+ GoString.nl
                      +:+ "Timeout          " +:+ GoString.nl;
            stderr := ""; status := 0;
            exchanges := [ {| call_net := "udp"; call_timeout := Some 3%N;
                              call_question := "example.com.";
                              call_server := ":53" |} ] |}.
Proof. vm_compute. reflexivity. Qed.

(** ** The JSON line, read back *)

Module JsonTextFacts.
Import GoString JsonText.

Lemma byte_val_eq c n : byte_val c = n -> c = ascii_of_N n.
Proof. intros <-. unfold byte_val. by rewrite ascii_N_embedding. Qed.

Lemma parse_chars_raw c r :
  byte_val c <> 34%N -> byte_val c <> 92%N -> (32 <= byte_val c)%N ->
  parse_chars (String c r)
  = '(t, rest) ← parse_chars r; Some (String c t, rest).
Proof.
  intros H1 H2 H3. cbn [parse_chars].
  apply N.eqb_neq in H1, H2. apply N.ltb_ge in H3.
  by rewrite H1, H2, H3.
Qed.

Lemma parse_chars_high c r :
  is_ascii_byte c = false ->
  parse_chars (String c r)
  = '(t, rest) ← parse_chars r; Some (String c t, rest).
Proof.
  unfold is_ascii_byte. intros H%N.ltb_ge. apply parse_chars_raw; lia.
Qed.

Lemma parse_chars_safe c r :
  html_safe c = true ->
  parse_chars (String c r)
  = '(t, rest) ← parse_chars r; Some (String c t, rest).
Proof.
  unfold html_safe. cbv zeta. rewrite !andb_true_iff, !negb_true_iff.
  intros [[[[[H1%N.leb_le H2%N.eqb_neq] _] _] _] H3%N.eqb_neq].
  by apply parse_chars_raw.
Qed.

Section Escapes.
Variable short_escape : ascii -> bool.

Lemma parse_chars_escape_ascii c r :
  is_ascii_byte c = true -> html_safe c = false ->
  parse_chars (escape_ascii short_escape c +:+ r)
  = '(t, rest) ← parse_chars r; Some (String c t, rest).
Proof.
  intros Ha Hs.
  destruct c as [[] [] [] [] [] [] [] []];
    vm_compute in Ha; try discriminate Ha;
    vm_compute in Hs; try discriminate Hs;
    unfold escape_ascii; cbv zeta; try destruct (short_escape _);
    reflexivity.
Qed.

Lemma second_ok_high c0 c1 : second_ok c0 c1 = true -> is_ascii_byte c1 = false.
Proof.
  unfold second_ok, is_ascii_byte. cbv zeta.
  rewrite andb_true_iff. intros [H%N.leb_le _]. apply N.ltb_ge.
  repeat case_match; lia.
Qed.

Lemma is_cont_high c : is_cont c = true -> is_ascii_byte c = false.
Proof.
  unfold is_cont, is_ascii_byte. rewrite andb_true_iff.
  intros [H%N.leb_le _]. apply N.ltb_ge. lia.
Qed.

Lemma rune_size_high c r : high_bytes (rune_size (String c r) - 1) r = true.
Proof.
  unfold rune_size.
  destruct (lead_size c) as [|[|[|[|[|n]]]]]; try done.
  - destruct r as [|c1 r]; [done|].
    destruct (second_ok c c1) eqn:H1; [|done].
    simpl. by rewrite (second_ok_high _ _ H1).
  - destruct r as [|c1 [|c2 r]]; try done.
    destruct (second_ok c c1) eqn:H1; [|done].
    destruct (is_cont c2) eqn:H2; [|done].
    simpl. by rewrite (second_ok_high _ _ H1), (is_cont_high _ H2).
  - destruct r as [|c1 [|c2 [|c3 r]]]; try done.
    destruct (second_ok c c1) eqn:H1; [|done].
    destruct (is_cont c2) eqn:H2; [|done].
    destruct (is_cont c3) eqn:H3; [|done].
    simpl. by rewrite (second_ok_high _ _ H1), (is_cont_high _ H2), (is_cont_high _ H3).
Qed.

Lemma escape_from_rune c r :
  is_ascii_byte c = false -> rune_size (String c r) <> 1 ->
  (exists c2 r2,
      r = String (ascii_of_N 128) (String c2 r2) /\ c = ascii_of_N 226 /\
      (c2 = ascii_of_N 168 \/ c2 = ascii_of_N 169) /\
      escape_from short_escape 0 (String c r)
      = "\u202" +:+ String (hex_digit (byte_val c2 mod 16))
                        (escape_from short_escape 0 r2)) \/
  escape_from short_escape 0 (String c r)
  = String c (escape_from short_escape (rune_size (String c r) - 1) r).
Proof.
  intros Ha Hr. cbn [escape_from]. rewrite Ha.
  destruct (decide (rune_size (String c r) = 1)); [done|].
  destruct r as [|c1 [|c2 r2]]; [by right|by right|].
  destruct (_ && _)%bool eqn:Hsep; [|by right].
  left. apply andb_true_iff in Hsep as [[H0%N.eqb_eq H1%N.eqb_eq]%andb_true_iff H2].
  apply byte_val_eq in H0, H1. subst c c1.
  exists c2, r2. split; [done|]. split; [done|]. split; [|done].
  apply orb_true_iff in H2 as [H2%N.eqb_eq|H2%N.eqb_eq];
    apply byte_val_eq in H2; auto.
Qed.

(** Reading the escaped text of a well-formed string gives the string. *)
Lemma parse_chars_escape_from n : forall s skip rest,
  String.length s <= n ->
  valid_from skip s = true -> high_bytes skip s = true ->
  parse_chars (escape_from short_escape skip s +:+ String dq rest) = Some (s, rest).
Proof.
  induction n as [|n IH]; intros s skip rest Hn Hv Hh.
  { destruct s; [done|simpl in Hn; lia]. }
  destruct s as [|c r]; [done|]. simpl in Hn.
  destruct skip as [|k].
  - destruct (is_ascii_byte c) eqn:Ha.
    + cbn [valid_from] in Hv. rewrite FmtFacts.rune_size_ascii in Hv by done.
      rewrite Ha in Hv. simpl in Hv.
      cbn [escape_from]. rewrite Ha, GoStringFacts.append_assoc.
      destruct (html_safe c) eqn:Hs.
      * cbn [String.append]. rewrite parse_chars_safe by done.
        rewrite IH; [done|lia|done|done].
      * rewrite parse_chars_escape_ascii by done.
        rewrite IH; [done|lia|done|done].
    + cbn [valid_from] in Hv. rewrite Ha in Hv. simpl in Hv.
      apply andb_true_iff in Hv as [Hr Hv].
      apply negb_true_iff, Nat.eqb_neq in Hr.
      destruct (escape_from_rune c r Ha Hr) as [(c2 & r2 & -> & -> & Hc2 & ->)| ->].
      * assert (valid_from 0 r2 = true) as Hv2.
        { destruct Hc2 as [-> | ->]; exact Hv. }
        simpl in Hn.
        assert (parse_chars (escape_from short_escape 0 r2 +:+ String dq rest)
                = Some (r2, rest)) as Hrec by (apply IH; [lia|done|done]).
        destruct Hc2 as [-> | ->].
        -- change (('(t, rest0) ← parse_chars (escape_from short_escape 0 r2 +:+ String dq rest);
                   Some (String (ascii_of_N 226) (String (ascii_of_N 128)
                           (String (ascii_of_N 168) t)), rest0))
                   = Some (String (ascii_of_N 226) (String (ascii_of_N 128)
                           (String (ascii_of_N 168) r2)), rest)).
           by rewrite Hrec.
        -- change (('(t, rest0) ← parse_chars (escape_from short_escape 0 r2 +:+ String dq rest);
                   Some (String (ascii_of_N 226) (String (ascii_of_N 128)
                           (String (ascii_of_N 169) t)), rest0))
                   = Some (String (ascii_of_N 226) (String (ascii_of_N 128)
                           (String (ascii_of_N 169) r2)), rest)).
           by rewrite Hrec.
      * cbn [String.append]. rewrite parse_chars_high by done.
        rewrite IH; [done|lia|done|apply rune_size_high].
  - cbn [valid_from] in Hv. cbn [high_bytes] in Hh.
    apply andb_true_iff in Hh as [Ha%negb_true_iff Hh].
    cbn [escape_from String.append]. rewrite parse_chars_high by done.
    rewrite IH; [done|lia|done|done].
Qed.

Lemma parse_chars_quote s rest :
  valid_utf8 s = true ->
  parse_chars (escape_from short_escape 0 s +:+ String dq rest) = Some (s, rest).
Proof. intros H. by apply (parse_chars_escape_from (String.length s)). Qed.


Local Abbreviation text := (Marshal short_escape).
Local Abbreviation member :=
  (fun kv : string * json => quote short_escape (fst kv) +:+ ":" +:+ text (snd kv)).

(** Evaluates the tests of the reader on the characters that are known. *)
Ltac known_heads :=
  repeat first
    [ match goal with
      | |- context [is_ws ?c] =>
          let v := eval vm_compute in (is_ws c) in
          lazymatch v with
          | true => change (is_ws c) with true
          | false => change (is_ws c) with false
          end
      | |- context [byte_val ?c] =>
          let v := eval vm_compute in (byte_val c) in
          lazymatch v with
          | N0 => change (byte_val c) with v
          | Npos _ => change (byte_val c) with v
          end
      | |- context [N.eqb ?a ?b] =>
          let v := eval vm_compute in (N.eqb a b) in
          lazymatch v with
          | true => change (N.eqb a b) with true
          | false => change (N.eqb a b) with false
          end
      end
    | progress cbv beta iota
    | progress cbn [andb orb negb mbind option_bind String.append skip_ws] ].

(** Induction on a value, with the property at every element and member. *)
Lemma json_nested_ind (P : json -> Prop) :
  P JNull -> (forall s, P (JString s)) ->
  (forall items, Forall P items -> P (JArray items)) ->
  (forall fields, Forall (fun kv => P (snd kv)) fields -> P (JObject fields)) ->
  forall v, P v.
Proof.
  intros Hn Hs Ha Ho. fix IH 1. intros [|s|items|fields].
  - apply Hn.
  - apply Hs.
  - apply Ha. induction items as [|x items IHl]; constructor; [apply IH|apply IHl].
  - apply Ho. induction fields as [|[k x] fields IHl]; constructor; [apply IH|apply IHl].
Qed.

(** The text of a value starts with a character that is no white space and
    no closing bracket. *)
Lemma Marshal_head v :
  exists c t, text v = String c t /\ is_ws c = false /\ (byte_val c =? 93)%N = false.
Proof. destruct v; simpl; by eexists _, _. Qed.

Lemma skip_ws_Marshal v rest : skip_ws (text v +:+ rest) = text v +:+ rest.
Proof.
  destruct (Marshal_head v) as (c & t & -> & Hc & _). simpl. by rewrite Hc.
Qed.

Local Abbreviation reads_back := (JsonText.reads_back short_escape).

Lemma parse_elements_Marshal items :
  Forall reads_back items -> forallb valid_json items = true ->
  forall x fuel rest,
    reads_back x -> valid_json x = true ->
    S (length items) + fuel_of x `max` list_max (map fuel_of items) <= fuel ->
    parse_elements fuel (String.concat "," (map text (x :: items)) +:+ String "]" rest)
    = Some (x :: items, rest).
Proof.
  induction 1 as [|y items Hy Hitems IH]; intros Hvalid x fuel rest Hx Hvx Hfuel.
  - destruct fuel as [|fuel]; [simpl in Hfuel; lia|].
    simpl in Hfuel. cbn [map String.concat parse_elements].
    rewrite Hx by (done || lia). cbn [mbind option_bind]. by known_heads.
  - destruct fuel as [|fuel]; [simpl in Hfuel; lia|].
    cbn [forallb] in Hvalid. apply andb_true_iff in Hvalid as [Hvy Hvalid].
    cbn [map list_max fold_right length] in Hfuel.
    change (String.concat "," (map text (x :: y :: items)))
      with (text x +:+ "," +:+ String.concat "," (map text (y :: items))).
    rewrite !GoStringFacts.append_assoc. cbn [parse_elements].
    rewrite Hx by (done || lia). cbn [mbind option_bind String.append skip_ws].
    known_heads.
    rewrite IH; [done|done|done|done|].
    change (fold_right Init.Nat.max 0 (map fuel_of items))
      with (list_max (map fuel_of items)) in Hfuel. lia.
Qed.

Lemma parse_members_Marshal fields :
  Forall (fun kv => reads_back (snd kv)) fields ->
  forallb (fun kv => valid_utf8 (fst kv) && valid_json (snd kv)) fields = true ->
  forall k x fuel rest,
    reads_back x -> valid_utf8 k = true -> valid_json x = true ->
    S (length fields) + fuel_of x `max` list_max (map (fun kv => fuel_of (snd kv)) fields)
    <= fuel ->
    parse_members fuel (String.concat "," (map member ((k, x) :: fields)) +:+ String "}" rest)
    = Some ((k, x) :: fields, rest).
Proof.
  induction 1 as [|[k' y] fields Hy Hfields IH];
    intros Hvalid k x fuel rest Hx Hvk Hvx Hfuel.
  - destruct fuel as [|fuel]; [simpl in Hfuel; lia|].
    simpl in Hfuel. cbn [map String.concat fst snd].
    unfold quote. cbn [String.append].
    rewrite !GoStringFacts.append_assoc. cbn [String.append].
    cbn [parse_members skip_ws]. known_heads.
    rewrite parse_chars_quote by done. cbn [mbind option_bind skip_ws]. known_heads.
    rewrite Hx by (done || lia). cbn [mbind option_bind skip_ws]. by known_heads.
  - destruct fuel as [|fuel]; [simpl in Hfuel; lia|].
    cbn [forallb fst snd] in Hvalid.
    apply andb_true_iff in Hvalid as [[Hvk' Hvy]%andb_true_iff Hvalid].
    cbn [map list_max fold_right length snd] in Hfuel.
    change (String.concat "," (map member ((k, x) :: (k', y) :: fields)))
      with (member (k, x) +:+ "," +:+ String.concat "," (map member ((k', y) :: fields))).
    cbn [fst snd]. unfold quote. cbn [String.append].
    rewrite !GoStringFacts.append_assoc. cbn [String.append].
    cbn [parse_members skip_ws]. known_heads.
    rewrite parse_chars_quote by done. cbn [mbind option_bind skip_ws]. known_heads.
    rewrite Hx by (done || lia). cbn [mbind option_bind String.append skip_ws].
    known_heads.
    rewrite IH; [done|done|done|done|done|].
    change (fold_right Init.Nat.max 0 (map (fun kv => fuel_of (snd kv)) fields))
      with (list_max (map (fun kv => fuel_of (snd kv)) fields)) in Hfuel. lia.
Qed.

(** Reading the text of a value with well-formed strings gives the value
    and leaves what follows the text. *)
Lemma parse_value_Marshal v : reads_back v.
Proof.
  induction v as [|s|items IH|fields IH] using json_nested_ind;
    intros Hvalid fuel rest Hfuel.
  - destruct fuel as [|fuel]; [simpl in Hfuel; lia|]. done.
  - destruct fuel as [|fuel]; [simpl in Hfuel; lia|].
    cbn [Marshal]. unfold quote. cbn [String.append].
    rewrite GoStringFacts.append_assoc. cbn [String.append].
    cbn [parse_value skip_ws]. known_heads.
    simpl in Hvalid. by rewrite parse_chars_quote.
  - destruct fuel as [|fuel]; [simpl in Hfuel; lia|].
    cbn [Marshal]. rewrite !GoStringFacts.append_assoc. cbn [String.append].
    destruct items as [|x items]; [done|].
    cbn [valid_json forallb] in Hvalid. apply andb_true_iff in Hvalid as [Hvx Hvalid].
    apply Forall_cons in IH as [Hx IH].
    cbn [fuel_of map list_max fold_right length] in Hfuel.
    change (fold_right Init.Nat.max 0 (map fuel_of items))
      with (list_max (map fuel_of items)) in Hfuel.
    cbn [parse_value skip_ws]. known_heads.
    destruct (Marshal_head x) as (c & t & Hhead & Hc & Hc').
    assert (skip_ws (String.concat "," (map text (x :: items)) +:+ String "]" rest)
            = String c (t +:+ match items with
                              | [] => ""
                              | _ => "," +:+ String.concat "," (map text items)
                              end +:+ String "]" rest)) as ->.
    { destruct items; cbn [map String.concat]; rewrite Hhead; cbn [String.append skip_ws];
        rewrite Hc; [done|]. by rewrite GoStringFacts.append_assoc. }
    rewrite Hc'.
    rewrite (parse_elements_Marshal items IH Hvalid x fuel rest Hx Hvx) by lia. done.
  - destruct fuel as [|fuel]; [simpl in Hfuel; lia|].
    cbn [Marshal]. set (m := member).
    rewrite !GoStringFacts.append_assoc. cbn [String.append].
    destruct fields as [|[k x] fields]; [done|].
    cbn [valid_json forallb fst snd] in Hvalid.
    apply andb_true_iff in Hvalid as [[Hvk Hvx]%andb_true_iff Hvalid].
    apply Forall_cons in IH as [Hx IH]. cbn [snd] in Hx.
    cbn [fuel_of map list_max fold_right length snd] in Hfuel.
    change (fold_right Init.Nat.max 0 (map (fun kv => fuel_of (snd kv)) fields))
      with (list_max (map (fun kv => fuel_of (snd kv)) fields)) in Hfuel.
    cbn [parse_value skip_ws]. known_heads.
    assert (skip_ws (String.concat "," (map m ((k, x) :: fields)) +:+ String "}" rest)
            = String dq ((escape_from short_escape 0 k +:+ String dq "")
                         +:+ ":" +:+ text x
                         +:+ match fields with
                              | [] => ""
                              | _ => "," +:+ String.concat "," (map member fields)
                              end +:+ String "}" rest)) as ->.
    { subst m. destruct fields; cbn [map String.concat fst snd]; unfold quote;
        cbn [String.append skip_ws]; cbn -[String.concat map escape_from Marshal];
        by rewrite ?GoStringFacts.append_assoc. }
    known_heads. subst m.
    rewrite (parse_members_Marshal fields IH Hvalid k x fuel rest Hx Hvk Hvx) by lia. done.
Qed.


Lemma fuel_of_concat (A : Type) (need : A -> nat) (show : A -> string) (l : list A) :
  Forall (fun x => need x <= String.length (show x)) l ->
  length l + list_max (map need l) <= 1 + String.length (String.concat "," (map show l)).
Proof.
  induction 1 as [|x l Hx Hl IH]; [simpl; lia|].
  destruct l as [|y l].
  - simpl. simpl in Hx. lia.
  - change (String.concat "," (map show (x :: y :: l)))
      with (show x +:+ "," +:+ String.concat "," (map show (y :: l))).
    rewrite !GoStringFacts.length_append.
    change (list_max (map need (x :: y :: l)))
      with (need x `max` list_max (map need (y :: l))).
    change (length (x :: y :: l)) with (S (length (y :: l))).
    change (String.length ",") with 1. lia.
Qed.

(** The fuel a value takes is at most the length of its text. *)
Lemma fuel_of_length v : fuel_of v <= String.length (text v).
Proof.
  induction v as [|s|items IH|fields IH] using json_nested_ind.
  - simpl. lia.
  - simpl. lia.
  - cbn [fuel_of Marshal]. rewrite !GoStringFacts.length_append.
    pose proof (fuel_of_concat json fuel_of text items IH).
    change (String.length "[") with 1. change (String.length "]") with 1. lia.
  - cbn [fuel_of Marshal]. rewrite !GoStringFacts.length_append.
    pose proof (fuel_of_concat (string * json) (fun kv => fuel_of (snd kv)) member fields) as H.
    change (String.length "{") with 1. change (String.length "}") with 1.
    assert (Forall (fun kv => fuel_of (snd kv) <= String.length (member kv)) fields) as H'.
    { eapply Forall_impl; [exact IH|]. intros [k x] Hx. cbn [fst snd] in *.
      rewrite !GoStringFacts.length_append. lia. }
    specialize (H H'). lia.
Qed.

(** The line [fmt.Println] writes for the text of a value reads as the
    value. *)
Lemma parse_Marshal_line v :
  valid_json v = true -> parse (text v +:+ nl) = Some v.
Proof.
  intros Hv. unfold parse.
  rewrite (parse_value_Marshal v Hv).
  - done.
  - pose proof (fuel_of_length v). rewrite GoStringFacts.length_append. lia.
Qed.

End Escapes.

Lemma valid_utf8_ascii s : isASCII s = true -> valid_utf8 s = true.
Proof.
  unfold valid_utf8. induction s as [|c r IH]; [done|]. cbn [isASCII valid_from].
  intros [Hc Hr]%andb_true_iff. rewrite Hc, FmtFacts.rune_size_ascii by done.
  cbn. by apply IH.
Qed.

Lemma valid_json_of_strings x :
  Forall (fun s => valid_utf8 s = true) x -> valid_json (json_of_strings x) = true.
Proof.
  intros H. destruct x as [|s x]; [done|].
  unfold json_of_strings. cbn [valid_json].
  apply forallb_forall. intros v [t [<- Ht]]%in_map_iff.
  apply (proj1 (List.Forall_forall _ _) H), Ht.
Qed.

Lemma valid_json_of_AnswersJson (a : Answers) :
  Forall valid_Answer a -> valid_json (json_of_AnswersJson (to_AnswersJson a)) = true.
Proof.
  intros H. unfold json_of_AnswersJson, to_AnswersJson. cbn [valid_json].
  rewrite <- list_fmap_compose.
  apply forallb_forall. intros v [item [<- Hitem]]%in_map_iff.
  apply (proj1 (List.Forall_forall _ _) H) in Hitem as (Hname & Haddr & Hips & Herr).
  unfold json_of_AnswerJson, compose.
  cbn [valid_json forallb fst snd AnswerJson_DnsAddr AnswerJson_IP AnswerJson_Error].
  assert (valid_utf8 match Answer_Error item with
                     | Some e => Error e
                     | None => ""
                     end = true) as ->
    by (destruct (Answer_Error item) as [e|]; [by apply Herr|done]).
  rewrite Hname, Haddr, valid_json_of_strings; [by vm_compute|].
  apply Forall_forall. intros ip Hip. by apply Hips.
Qed.

End JsonTextFacts.

(** *** The strings of the results of [query] *)

Section QueryStrings.
Variable Fqdn : string -> string.
Variable Exchange : World -> Exchange_call -> list RR + error.
Variables domain net : string.

(** The error texts of the resolver are well-formed UTF-8. *)
Hypothesis Exchange_errors :
  forall w call e, Exchange w call = inr e -> JsonText.valid_utf8 (Error e) = true.

Lemma goroutine_answer_strings (d : DnsAddr) (w : World) :
  JsonText.valid_utf8 (Name d) = true -> JsonText.valid_utf8 (Address d) = true ->
  valid_Answer (goroutine_answer Fqdn Exchange domain net d w).1.
Proof.
  intros Hname Haddr.
  assert (forall ip, ip ∈ Answer_IP (goroutine_answer Fqdn Exchange domain net d w).1 ->
                     JsonText.valid_utf8 ip = true) as Hips.
  { intros ip Hip%goroutine_answer_ip_source.
    apply ARecords_width in Hip as [Hascii _].
    by apply JsonTextFacts.valid_utf8_ascii. }
  destruct (decide (net = "tcp" \/ net = "udp")) as [Hnet|Hnet].
  - rewrite goroutine_answer_valid in * by done. cbn [fst] in *.
    split; [|split; [|split; [exact Hips|]]].
    + unfold answer_for. by repeat case_match.
    + unfold answer_for. by repeat case_match.
    + unfold answer_for.
      destruct (Exchange w (query_call Fqdn domain net d)) as [answer|err] eqn:Hx.
      * destruct (a_records answer); intros e [= <-]. by vm_compute.
      * intros e [= <-]. by eapply Exchange_errors.
  - rewrite goroutine_answer_rejected in * by (split; intros ?; apply Hnet; auto).
    cbn [fst] in *.
    split; [done|]. split; [done|]. split; [exact Hips|].
    intros e [= <-]. by vm_compute.
Qed.

(** The strings of what [query] returns are well-formed UTF-8 when those of
    the configured servers are. *)
Lemma query_valid_Answers (dns : DnsAddrs) (sched : list (nat * DnsAddr)) (w : World)
    (a : Answers) (w' : World) :
  Forall (fun d => JsonText.valid_utf8 (Name d) = true
                   /\ JsonText.valid_utf8 (Address d) = true) dns ->
  schedule_of dns sched ->
  query Fqdn Exchange dns domain net sched w = Some (a, w') ->
  Forall valid_Answer a.
Proof.
  intros Hdns Hs Hq. apply Forall_forall. intros item Hitem.
  destruct (query_elements Fqdn Exchange domain net dns sched w a w' item Hs Hq Hitem)
    as (d & w0 & Hd & ->).
  apply (proj1 (Forall_forall _ _) Hdns) in Hd as [Hname Haddr].
  by apply goroutine_answer_strings.
Qed.
End QueryStrings.

(** The reader is not bound to the spacing of [json.Marshal]. *)
Example parse_spaced :
  JsonText.parse " [ null , [ ] , { } ] " = Some (JArray [JNull; JArray []; JObject []]).
Proof. vm_compute. reflexivity. Qed.



(** The sample results, read back from the line that is printed. *)
Example outputJson_sample :
  JsonText.parse (outputJson (JsonText.Marshal (fun _ => true)) Sample.answers)
    ≫= AnswersJson_of_json
  = Some [ {| AnswerJson_DnsAddr := Sample.AliDNS; AnswerJson_IP := [];
              AnswerJson_Error := "read udp 223.5.5.5:53: i/o timeout" |};
           {| AnswerJson_DnsAddr := Sample.Google; AnswerJson_IP := ["93.184.216.34"];
              AnswerJson_Error := "" |} ].
Proof. vm_compute. reflexivity. Qed.

(** The line printed for the sample results. *)
Example outputJson_sample_text :
  outputJson (JsonText.Marshal (fun _ => true)) Sample.answers
  = "[{" +:+ quoted "Name" +:+ ":" +:+ quoted "AliDNS" +:+ ","
    +:+ quoted "Address" +:+ ":" +:+ quoted "223.5.5.5" +:+ ","
    +:+ quoted "IP" +:+ ":null,"
    +:+ quoted "Error" +:+ ":" +:+ quoted "read udp 223.5.5.5:53: i/o timeout"
    +:+ "},{" +:+ quoted "Name" +:+ ":" +:+ quoted "Google" +:+ ","
    +:+ quoted "Address" +:+ ":" +:+ quoted "8.8.8.8" +:+ ","
    +:+ quoted "IP" +:+ ":[" +:+ quoted "93.184.216.34" +:+ "],"
    +:+ quoted "Error" +:+ ":" +:+ quoted "" +:+ "}]" +:+ GoString.nl.
Proof. vm_compute. reflexivity. Qed.

(** [json.Marshal] escapes the characters of HTML, and the reader undoes
    it. *)
Example Marshal_escapes :
  JsonText.Marshal (fun _ => true) (JString "<A&B>") = quoted "\u003cA\u0026B\u003e" /\
  JsonText.parse (quoted "\u003cA\u0026B\u003e") = Some (JString "<A&B>").
Proof. split; vm_compute; reflexivity. Qed.
